(** * Image-loading performance tracker and lazy image component

    A shallow embedding of [utils/imagePerformance.ts] (the class
    [ImageLoadingPerformance] and its singleton) and of the load / error
    handlers and the render function of [_components/LazyImage.tsx].

    Modelling conventions.
    - The counters of [PerformanceMetrics] are JavaScript numbers that only
      ever hold integers here (an array length, [++]); they are modelled as
      [Z].  Fractional and NaN arguments to [startTracking] are outside the
      model.
    - The quotient returned by [getProgress] is modelled exactly, as a
      rational, inside a small type of JavaScript numbers that also has the
      non-finite results a division by zero would produce.
    - [Date.now()] is an input of the call that reads it.
    - The host ([Platform.OS], [window.performance], [__DEV__]) is a record,
      and what a call does to the host (marks, measures, console lines) is
      the list of events it returns.
    - [Set<string>] iterates in insertion order: it is a duplicate-free list,
      oldest entry first. *)

From Stdlib Require Import ZArith QArith Lia.
From stdpp Require Import base list strings pretty.

(** ** JavaScript numbers, as far as [getProgress] needs them *)

Inductive JsNumber : Type :=
| Finite (q : Q)
| PosInfinity
| NegInfinity
| NaN.

(** [a / b] on integer-valued operands. *)
Definition js_div (a b : Z) : JsNumber :=
  if (b =? 0)%Z then
    if (a =? 0)%Z then NaN
    else if (0 <? a)%Z then PosInfinity else NegInfinity
  else Finite (inject_Z a / inject_Z b)%Q.

Definition is_finite (x : JsNumber) : Prop :=
  match x with Finite _ => True | _ => False end.

(** [x] is a real number of the closed interval from 0 to 1. *)
Definition in_unit_interval (x : JsNumber) : Prop :=
  match x with
  | Finite q => (0 <= q)%Q /\ (q <= 1)%Q
  | _ => False
  end.

(** [x == 1] on JavaScript numbers. *)
Definition js_is_one (x : JsNumber) : Prop :=
  match x with Finite q => (q == 1)%Q | _ => False end.

(** A string is truthy unless it is empty. *)
Definition truthy (s : string) : bool :=
  match s with EmptyString => false | String _ _ => true end.

(** ** The host *)

(** [window.performance], when the host has one. *)
Record Performance : Type := {
  clear_throws : bool;          (* performance.clearMarks throws *)
  measure_throws : bool;        (* performance.measure throws *)
  memory : option Z             (* performance.memory.usedJSHeapSize *)
}.

Record Host : Type := {
  platform_web : bool;                  (* Platform.OS === "web" *)
  window_performance : option Performance;
  dev : bool                            (* __DEV__ *)
}.

Inductive Event : Type :=
| ClearMarks (name : string)
| ClearMeasures (name : string)
| Mark (name : string)
| Measure (name from to : string)
| WarnMeasurementFailed
| LogLoadingComplete (loadTime total : Z)
| LogMemoryUsage (megabytes : Z)
| LogCacheCleared
| ThrowTypeError.

(** [Platform.OS === "web" && window.performance] *)
Definition web_performance (h : Host) : option Performance :=
  if platform_web h then window_performance h else None.

(** [Math.round(bytes / 1024 / 1024)] for an integer byte count. *)
Definition round_megabytes (bytes : Z) : Z :=
  ((2 * bytes + 1048576) / 2097152)%Z.

(** ** The tracker *)

Module Tracker.

Record PerformanceMetrics : Type := {
  imageLoadStart : Z;
  imageLoadEnd : Z;
  totalImages : Z;
  loadedImages : Z
}.

Record ImageLoadingPerformance : Type := {
  metrics : PerformanceMetrics;
  imageCache : list string
}.

Definition maxCacheSize : nat := 50.

(** [new ImageLoadingPerformance()] *)
Definition imagePerformance : ImageLoadingPerformance :=
  {| metrics := {| imageLoadStart := 0; imageLoadEnd := 0;
                   totalImages := 0; loadedImages := 0 |};
     imageCache := [] |}.

Definition startTracking (h : Host) (now : Z) (total : Z)
    (t : ImageLoadingPerformance) : ImageLoadingPerformance * list Event :=
  let m := {| imageLoadStart := now;
              imageLoadEnd := imageLoadEnd (metrics t);
              totalImages := total;
              loadedImages := 0 |} in
  ({| metrics := m; imageCache := imageCache t |},
   match web_performance h with
   | Some p =>
       (if clear_throws p then []
        else [ClearMarks "image-loading-start";
              ClearMeasures "image-loading-duration"])
       ++ [Mark "image-loading-start"]
   | None => []
   end).

(** The test [this.metrics.loadedImages === this.metrics.totalImages]. *)
Definition reachedTotal (m : PerformanceMetrics) : bool :=
  (loadedImages m =? totalImages m)%Z.

(** What the completion branch of [onImageLoaded] does to the host, once
    the end timestamp is stored in [m]. *)
Definition completionEvents (h : Host) (m : PerformanceMetrics) : list Event :=
  match web_performance h with
  | Some p =>
      Mark "image-loading-end"
      :: (if measure_throws p then [WarnMeasurementFailed]
          else [Measure "image-loading-duration"
                  "image-loading-start" "image-loading-end"])
  | None => []
  end
  ++ (if dev h
      then [LogLoadingComplete (imageLoadEnd m - imageLoadStart m) (totalImages m)]
      else [])
  ++ (if dev h && platform_web h then
        match window_performance h with
        | None => [ThrowTypeError]
        | Some p =>
            match memory p with
            | Some bytes => [LogMemoryUsage (round_megabytes bytes)]
            | None => []
            end
        end
      else []).

Definition onImageLoaded (h : Host) (now : Z)
    (t : ImageLoadingPerformance) : ImageLoadingPerformance * list Event :=
  let m := metrics t in
  let m1 := {| imageLoadStart := imageLoadStart m;
               imageLoadEnd := imageLoadEnd m;
               totalImages := totalImages m;
               loadedImages := loadedImages m + 1 |} in
  if reachedTotal m1 then
    let m2 := {| imageLoadStart := imageLoadStart m1;
                 imageLoadEnd := now;
                 totalImages := totalImages m1;
                 loadedImages := loadedImages m1 |} in
    ({| metrics := m2; imageCache := imageCache t |}, completionEvents h m2)
  else
    ({| metrics := m1; imageCache := imageCache t |}, []).

Definition getProgress (t : ImageLoadingPerformance) : JsNumber :=
  if (0 <? totalImages (metrics t))%Z
  then js_div (loadedImages (metrics t)) (totalImages (metrics t))
  else Finite 0.

(** [{ ...this.metrics }]: a copy of the record. *)
Definition getMetrics (t : ImageLoadingPerformance) : PerformanceMetrics :=
  metrics t.

(** *** The cache: a [Set<string>] in insertion order *)

Definition set_has (k : string) (c : list string) : bool :=
  bool_decide (k ∈ c).

Definition set_add (k : string) (c : list string) : list string :=
  if bool_decide (k ∈ c) then c else c ++ [k].

Definition set_delete (k : string) (c : list string) : list string :=
  filter (λ x, x ≠ k) c.

(** [set.values().next().value]: [undefined] on an empty set. *)
Definition set_first (c : list string) : option string := head c.

(** What callers pass as [imageSource : any]: a string, a plain object
    with or without a [uri] field, an asset id from [require], which is a
    safe integer (below 2^53 in absolute value), [null], [undefined], or an
    array of sources. *)
#[warnings="-register-all"]
Inductive ImageSource : Type :=
| SrcString (s : string)
| SrcObject (uri : option string)     (* a plain object, with or without [uri] *)
| SrcNumber (n : Z)                   (* an asset id from [require] *)
| SrcNull
| SrcUndefined
| SrcArray (items : list ImageSource).

(** [String(imageSource)].  A safe integer prints as its decimal digits.
    An array prints as its elements joined by commas, [null] and
    [undefined] elements printing as nothing. *)
Fixpoint js_String (src : ImageSource) : string :=
  match src with
  | SrcString s => s
  | SrcObject _ => "[object Object]"
  | SrcNumber n => pretty n
  | SrcNull => "null"
  | SrcUndefined => "undefined"
  | SrcArray items =>
      (fix join (l : list ImageSource) : string :=
         match l with
         | [] => ""
         | x :: l' =>
             match x with
             | SrcNull | SrcUndefined => ""
             | _ => js_String x
             end
             +:+ match l' with
                 | [] => ""
                 | _ :: _ => "," +:+ join l'
                 end
         end) items
  end.

(** [imageSource?.uri] *)
Definition optional_uri (src : ImageSource) : option string :=
  match src with
  | SrcObject uri => uri
  | _ => None
  end.

(** [typeof imageSource === "string" ? imageSource
      : imageSource?.uri || String(imageSource)] *)
Definition imageKey (src : ImageSource) : string :=
  match src with
  | SrcString s => s
  | _ =>
      match optional_uri src with
      | Some u => if truthy u then u else js_String src
      | None => js_String src
      end
  end.

Definition isImageCached (src : ImageSource)
    (t : ImageLoadingPerformance) : bool :=
  set_has (imageKey src) (imageCache t).

(** The eviction step of [cacheImage], on the set alone. *)
Definition evictIfFull (c : list string) : list string :=
  if bool_decide (maxCacheSize ≤ length c) then
    match set_first c with
    | Some firstItem => if truthy firstItem then set_delete firstItem c else c
    | None => c
    end
  else c.

Definition cacheImage (src : ImageSource)
    (t : ImageLoadingPerformance) : ImageLoadingPerformance :=
  let imageKey := imageKey src in
  {| metrics := metrics t;
     imageCache := set_add imageKey (evictIfFull (imageCache t)) |}.

Definition clearCache (h : Host)
    (t : ImageLoadingPerformance) : ImageLoadingPerformance * list Event :=
  ({| metrics := metrics t; imageCache := [] |},
   if dev h then [LogCacheCleared] else []).

(** *** Sequences of calls on the singleton *)

Inductive Call : Type :=
| StartTracking (now : Z) (total : Z)
| OnImageLoaded (now : Z)
| CacheImage (src : ImageSource)
| ClearCache.

Definition step (h : Host) (c : Call)
    (t : ImageLoadingPerformance) : ImageLoadingPerformance * list Event :=
  match c with
  | StartTracking now total => startTracking h now total t
  | OnImageLoaded now => onImageLoaded h now t
  | CacheImage src => (cacheImage src t, [])
  | ClearCache => clearCache h t
  end.

Fixpoint run (h : Host) (cs : list Call)
    (t : ImageLoadingPerformance) : ImageLoadingPerformance * list Event :=
  match cs with
  | [] => (t, [])
  | c :: cs' =>
      let '(t1, e1) := step h c t in
      let '(t2, e2) := run h cs' t1 in
      (t2, e1 ++ e2)
  end.

(** Whether the call [c], made in state [t], enters the completion branch
    of [onImageLoaded]. *)
Definition entersCompletion (c : Call) (t : ImageLoadingPerformance) : bool :=
  match c with
  | OnImageLoaded _ => (loadedImages (metrics t) + 1 =? totalImages (metrics t))%Z
  | _ => false
  end.

(** How many calls of [cs], made in turn from [t], enter it. *)
Fixpoint completions (h : Host) (cs : list Call)
    (t : ImageLoadingPerformance) : nat :=
  match cs with
  | [] => 0
  | c :: cs' =>
      (if entersCompletion c t then 1 else 0)
      + completions h cs' (fst (step h c t))
  end.

Definition isLogLoadingComplete (e : Event) : bool :=
  match e with LogLoadingComplete _ _ => true | _ => false end.

Definition isMeasurement (e : Event) : bool :=
  match e with
  | Measure _ _ _ => true
  | WarnMeasurementFailed => true
  | _ => false
  end.

Definition count_events (f : Event → bool) (es : list Event) : nat :=
  length (List.filter f es).

End Tracker.

(** ** The lazy image component *)

Module LazyImage.

Import Tracker.

Inductive Priority : Type := high | low.

(** The props the handlers and the render function read.  A callback or a
    custom placeholder is either supplied or not. *)
Record LazyImageProps : Type := {
  source : ImageSource;
  placeholder : bool;
  onLoad : bool;
  onError : bool;
  threshold : Z;
  priority : Priority
}.

(** The four [useState] cells. *)
Record State : Type := {
  isLoaded : bool;
  isInView : bool;
  hasError : bool;
  shouldLoad : bool
}.

Definition initialState (p : LazyImageProps) : State :=
  {| isLoaded := false; isInView := false; hasError := false;
     shouldLoad := match priority p with high => true | low => false end |}.

Inductive Effect : Type :=
| HostEvent (e : Event)
| WarnImageFailed (src : ImageSource)
| InvokeOnLoad
| InvokeOnError
| ScheduleRelease (ms : Z).

Definition isThrow (e : Event) : bool :=
  match e with ThrowTypeError => true | _ => false end.

(** The tracker call ended in an uncaught exception. *)
Definition threw (es : list Event) : bool := existsb isThrow es.

Definition handleImageLoad (h : Host) (now : Z) (p : LazyImageProps)
    (s : State) (t : ImageLoadingPerformance)
    : State * ImageLoadingPerformance * list Effect :=
  let s' := {| isLoaded := true; isInView := isInView s;
               hasError := hasError s; shouldLoad := shouldLoad s |} in
  let t1 := cacheImage (source p) t in
  let '(t2, es) := onImageLoaded h now t1 in
  (s', t2,
   map HostEvent es
   ++ (if threw es then []
       else (if onLoad p then [InvokeOnLoad] else [])
            ++ (if platform_web h then [] else [ScheduleRelease 100]))).

Definition handleImageError (p : LazyImageProps)
    (s : State) (t : ImageLoadingPerformance)
    : State * ImageLoadingPerformance * list Effect :=
  let s' := {| isLoaded := isLoaded s; isInView := isInView s;
               hasError := true; shouldLoad := shouldLoad s |} in
  (s', t,
   WarnImageFailed (source p) :: (if onError p then [InvokeOnError] else [])).

Inductive Node : Type :=
| PlaceholderNode (custom : bool)     (* [placeholder || defaultPlaceholder] *)
| ImageNode (opaque : bool)
| ErrorPlaceholderNode.

(** The element the component returns, as the list of children of its
    container, given the result of [imagePerformance.isImageCached(source)]. *)
Definition render (p : LazyImageProps) (s : State) (isCached : bool)
    : list Node :=
  if isCached && negb (hasError s) then [ImageNode true]
  else
    (if negb (shouldLoad s) then [PlaceholderNode (placeholder p)] else [])
    ++ (if shouldLoad s && negb (hasError s)
        then (if negb (isLoaded s) then [PlaceholderNode (placeholder p)] else [])
             ++ [ImageNode (isLoaded s)]
        else [])
    ++ (if hasError s then [ErrorPlaceholderNode] else []).

Definition isImage (n : Node) : bool :=
  match n with ImageNode _ => true | _ => false end.

Definition isInvokeOnError (e : Effect) : bool :=
  match e with InvokeOnError => true | _ => false end.

End LazyImage.

(** ** The mount effect of the lazy image component *)

Module LazyImageMount.

Import Tracker LazyImage.

(** What [containerRef.current] holds when it is not null: whether it has a
    truthy [_nativeTag], and whether [document.querySelector] then finds the
    tagged element. *)
Record ContainerRef : Type := {
  nativeTag : bool;
  queryFound : bool
}.

(** [element] is truthy: the queried element when the container is tagged,
    the container itself otherwise. *)
Definition elementFound (c : ContainerRef) : bool :=
  if nativeTag c then queryFound c else true.

(** What the first [useEffect] does when it runs. *)
Inductive Deferral : Type :=
| Immediate                       (* sets both flags and returns *)
| Observer (rootMargin : string) (threshold : Q) (observing : bool)
| Timer (delay : Q).

Definition isHigh (pr : Priority) : bool :=
  match pr with high => true | low => false end.

(** [setShouldLoad(true); setIsInView(true)] *)
Definition reveal (s : State) : State :=
  {| isLoaded := isLoaded s; isInView := true;
     hasError := hasError s; shouldLoad := true |}.

(** The effect, given the result of [isImageCached(source)], the container
    ref and the value [Math.random()] returns.  The timer delay is the exact
    value of [Math.random() * 1000 + 500]; the code rounds it to a double. *)
Definition mountEffect (h : Host) (p : LazyImageProps) (isCached : bool)
    (containerRef : option ContainerRef) (random : Q) : Deferral :=
  if isHigh (priority p) || isCached then Immediate
  else
    match (if platform_web h then containerRef else None) with
    | Some c =>
        Observer (pretty (threshold p) +:+ "px") (1 # 10) (elementFound c)
    | None =>
        Timer (if isHigh (priority p) then 0 else random * 1000 + 500)%Q
    end.

(** The state once the effect has run. *)
Definition afterMount (d : Deferral) (s : State) : State :=
  match d with
  | Immediate => reveal s
  | _ => s
  end.

(** The observer callback on its entries ([isIntersecting] of each): the
    new state and how many targets it stops observing. *)
Definition onIntersection (entries : list bool) (s : State) : State * nat :=
  (if existsb id entries then reveal s else s,
   length (List.filter id entries)).

(** The timer callback. *)
Definition onTimeout (s : State) : State := reveal s.

End LazyImageMount.

(** ** The home screen *)

Module Home.

Import Tracker LazyImage.

(** [Math.min] on two numbers. *)
Definition js_min (a b : Q) : Q := if Qle_bool a b then a else b.

(** [a < b] *)
Definition js_lt (a b : Q) : bool := negb (Qle_bool b a).

(** [getCardWidth], from the window width.  Widths are rationals, and the
    factors 0.85 and 0.7 are the rationals they denote. *)
Definition getCardWidth (h : Host) (width : Q) : Q :=
  if platform_web h then
    if js_lt width 480 then js_min (width * (85 # 100)) 300
    else if js_lt width 768 then js_min (width * (7 # 10)) 320
    else if js_lt width 1024 then 300
    else 280
  else 280.

(** The mount effect: [imagePerformance.startTracking(previousEventsData.length)],
    for any list of previous events. *)
Definition startGalleryTracking {A : Type} (h : Host) (now : Z)
    (previousEventsData : list A) (t : ImageLoadingPerformance)
    : ImageLoadingPerformance * list Event :=
  startTracking h now (Z.of_nat (length previousEventsData)) t.

(** What an image of the gallery reports: it loaded, at some time, or it
    failed. *)
Inductive ImageOutcome : Type :=
| Loaded (p : LazyImageProps) (now : Z)
| Failed (p : LazyImageProps).

Definition isLoadedOutcome (o : ImageOutcome) : bool :=
  match o with Loaded _ _ => true | Failed _ => false end.

(** The handlers of the components run in the order of the outcomes, on the
    shared tracker; the effects of all of them, in order. *)
Fixpoint deliver (h : Host) (os : list ImageOutcome)
    (t : ImageLoadingPerformance) : ImageLoadingPerformance * list Effect :=
  match os with
  | [] => (t, [])
  | o :: os' =>
      let '(t1, e1) :=
        match o with
        | Loaded p now =>
            let '(_, t1, e1) := handleImageLoad h now p (initialState p) t in
            (t1, e1)
        | Failed p =>
            let '(_, t1, e1) := handleImageError p (initialState p) t in
            (t1, e1)
        end in
      let '(t2, e2) := deliver h os' t1 in
      (t2, e1 ++ e2)
  end.

Definition isHostEvent (e : Effect) : bool :=
  match e with HostEvent _ => true | _ => false end.

Definition isCompletionLog (e : Effect) : bool :=
  match e with HostEvent (LogLoadingComplete _ _) => true | _ => false end.

Definition isInvokeOnLoad (e : Effect) : bool :=
  match e with InvokeOnLoad => true | _ => false end.

(** The times of the loads among the outcomes, in order. *)
Fixpoint loadTimes (os : list ImageOutcome) : list Z :=
  match os with
  | [] => []
  | Loaded _ now :: os' => now :: loadTimes os'
  | Failed _ :: os' => loadTimes os'
  end.

(** The host events among the effects, in order. *)
Fixpoint hostEvents (es : list Effect) : list Event :=
  match es with
  | [] => []
  | HostEvent e :: es' => e :: hostEvents es'
  | _ :: es' => hostEvents es'
  end.

Definition isPlaceholder (n : Node) : bool :=
  match n with PlaceholderNode _ => true | _ => false end.

Definition isErrorPlaceholder (n : Node) : bool :=
  match n with ErrorPlaceholderNode => true | _ => false end.

End Home.

(** ** Reading traces *)

Module Observations.

Import Tracker.

(** A line written with [console.log]. *)
Definition isConsoleLog (e : Event) : bool :=
  match e with
  | LogLoadingComplete _ _ | LogMemoryUsage _ | LogCacheCleared => true
  | _ => false
  end.

(** A call on [window.performance], or the warning its failure prints. *)
Definition isTimelineEvent (e : Event) : bool :=
  match e with
  | ClearMarks _ | ClearMeasures _ | Mark _ | Measure _ _ _
  | WarnMeasurementFailed => true
  | _ => false
  end.

Definition isThrowEvent (e : Event) : bool :=
  match e with ThrowTypeError => true | _ => false end.

(** What the host must be for the event to occur. *)
Definition gated (h : Host) (e : Event) : Prop :=
  (isConsoleLog e = true → dev h = true)
  ∧ (isTimelineEvent e = true → is_Some (web_performance h))
  ∧ (isThrowEvent e = true →
     dev h = true ∧ platform_web h = true ∧ window_performance h = None).

(** Follows the mark ["image-loading-start"] through a trace: [Some b] when
    every ["image-loading-end"] mark was put while the start mark was set,
    [b] telling whether it is set at the end; [None] otherwise. *)
Fixpoint timeline (started : bool) (es : list Event) : option bool :=
  match es with
  | [] => Some started
  | e :: es' =>
      match e with
      | ClearMarks name =>
          timeline (if String.eqb name "image-loading-start"
                    then false else started) es'
      | Mark name =>
          if String.eqb name "image-loading-start" then timeline true es'
          else if String.eqb name "image-loading-end"
               then (if started then timeline started es' else None)
               else timeline started es'
      | _ => timeline started es'
      end
  end.

(** [startTracking] and [onImageLoaded] on one side, the cache calls on the
    other. *)
Definition isTrackingCall (c : Call) : bool :=
  match c with
  | StartTracking _ _ | OnImageLoaded _ => true
  | _ => false
  end.

Definition isCacheCall (c : Call) : bool :=
  match c with
  | CacheImage _ | ClearCache => true
  | _ => false
  end.

End Observations.

(** ** Concrete hosts and inputs used by the examples *)

Module Scenarios.

Import Tracker.

(** A development build running in a browser. *)
Definition browser_dev : Host :=
  {| platform_web := true;
     window_performance :=
       Some {| clear_throws := false; measure_throws := false;
               memory := None |};
     dev := true |}.

(** A production build on a phone. *)
Definition native_release : Host :=
  {| platform_web := false; window_performance := None; dev := false |}.

(** The asset ids [a], [a + 1], ... ([n] of them) as image sources. *)
Definition numbered (a n : nat) : list ImageSource :=
  map (λ i, SrcNumber (Z.of_nat i)) (seq a n).

(** The singleton after [cacheImage] was called on each source in turn. *)
Definition cached (srcs : list ImageSource) : ImageLoadingPerformance :=
  fst (run native_release (map CacheImage srcs) imagePerformance).

End Scenarios.

(** * Properties of the tracking session *)

Module TrackerFacts.

Import Tracker Scenarios.

(** ** Quotients of integers *)

Lemma Qdiv_Z_nonneg (a b : Z) :
  (0 <= a)%Z → (0 < b)%Z → (0 <= inject_Z a / inject_Z b)%Q.
Proof.
  intros Ha Hb. destruct b as [|p|p]; try lia.
  unfold Qdiv, Qinv, Qmult, Qle, inject_Z; cbn. lia.
Qed.

Lemma Qdiv_Z_le_1 (a b : Z) :
  (0 < b)%Z → (inject_Z a / inject_Z b <= 1)%Q ↔ (a <= b)%Z.
Proof.
  intros Hb. destruct b as [|p|p]; try lia.
  unfold Qdiv, Qinv, Qmult, Qle, inject_Z; cbn. lia.
Qed.

Lemma Qdiv_Z_diag (b : Z) :
  (0 < b)%Z → (inject_Z b / inject_Z b == 1)%Q.
Proof.
  intros Hb. destruct b as [|p|p]; try lia.
  unfold Qdiv, Qinv, Qmult, Qeq, inject_Z; cbn. lia.
Qed.

Lemma js_div_positive (a b : Z) :
  (0 < b)%Z → js_div a b = Finite (inject_Z a / inject_Z b).
Proof.
  intros Hb. unfold js_div.
  destruct (Z.eqb_spec b 0) as [->|_]; [lia | reflexivity].
Qed.

Lemma js_div_zero_not_finite (a : Z) : ¬ is_finite (js_div a 0).
Proof.
  unfold js_div; cbn.
  destruct (a =? 0)%Z; [|destruct (0 <? a)%Z]; cbn; tauto.
Qed.

Lemma getProgress_positive (t : ImageLoadingPerformance) :
  (0 < totalImages (metrics t))%Z →
  getProgress t
  = Finite (inject_Z (loadedImages (metrics t))
            / inject_Z (totalImages (metrics t))).
Proof.
  intros Hpos. unfold getProgress.
  destruct (Z.ltb_spec 0 (totalImages (metrics t))); [|lia].
  by apply js_div_positive.
Qed.

Lemma getProgress_nonpositive (t : ImageLoadingPerformance) :
  (totalImages (metrics t) <= 0)%Z → getProgress t = Finite 0.
Proof.
  intros Hle. unfold getProgress.
  destruct (Z.ltb_spec 0 (totalImages (metrics t))); [lia | reflexivity].
Qed.

(** ** Runs *)

Lemma run_app (h : Host) (cs1 cs2 : list Call) (t : ImageLoadingPerformance) :
  run h (cs1 ++ cs2) t
  = (fst (run h cs2 (fst (run h cs1 t))),
     snd (run h cs1 t) ++ snd (run h cs2 (fst (run h cs1 t)))).
Proof.
  revert t. induction cs1 as [|c cs1 IH]; intros t; cbn.
  - by destruct (run h cs2 t).
  - destruct (step h c t) as [t1 e1]. rewrite IH.
    destruct (run h cs1 t1) as [t2 e2]; cbn.
    by rewrite app_assoc.
Qed.

Lemma completions_app (h : Host) (cs1 cs2 : list Call)
    (t : ImageLoadingPerformance) :
  completions h (cs1 ++ cs2) t
  = completions h cs1 t + completions h cs2 (fst (run h cs1 t)).
Proof.
  revert t. induction cs1 as [|c cs1 IH]; intros t; cbn; [done|].
  rewrite IH. destruct (step h c t) as [t1 e1]; cbn.
  destruct (run h cs1 t1); cbn. lia.
Qed.

Lemma count_events_app (f : Event → bool) (es1 es2 : list Event) :
  count_events f (es1 ++ es2) = count_events f es1 + count_events f es2.
Proof. unfold count_events. by rewrite List.filter_app, length_app. Qed.

(** The loaded counter never goes below zero. *)
Lemma step_loaded_nonneg (h : Host) (c : Call) (t : ImageLoadingPerformance) :
  (0 <= loadedImages (metrics t))%Z →
  (0 <= loadedImages (metrics (fst (step h c t))))%Z.
Proof.
  intros Hl. destruct c; cbn; try lia.
  unfold onImageLoaded. destruct (reachedTotal _); cbn; lia.
Qed.

Lemma run_loaded_nonneg (h : Host) (cs : list Call)
    (t : ImageLoadingPerformance) :
  (0 <= loadedImages (metrics t))%Z →
  (0 <= loadedImages (metrics (fst (run h cs t))))%Z.
Proof.
  revert t. induction cs as [|c cs IH]; intros t Hl; cbn; [done|].
  pose proof (step_loaded_nonneg h c t Hl) as H1.
  destruct (step h c t) as [t1 e1]. specialize (IH t1 H1).
  by destruct (run h cs t1).
Qed.

(** A call of [onImageLoaded] that does not reach the total only counts. *)
Lemma onImageLoaded_no_completion (h : Host) (now : Z)
    (t : ImageLoadingPerformance) :
  (loadedImages (metrics t) + 1)%Z ≠ totalImages (metrics t) →
  onImageLoaded h now t
  = ({| metrics := {| imageLoadStart := imageLoadStart (metrics t);
                      imageLoadEnd := imageLoadEnd (metrics t);
                      totalImages := totalImages (metrics t);
                      loadedImages := loadedImages (metrics t) + 1 |};
        imageCache := imageCache t |}, []).
Proof.
  intros Hne. unfold onImageLoaded, reachedTotal; cbn.
  destruct (Z.eqb_spec (loadedImages (metrics t) + 1) (totalImages (metrics t)));
    [done | reflexivity].
Qed.

(** The call that reaches the total stores the end time and reports. *)
Lemma onImageLoaded_completion (h : Host) (now : Z)
    (t : ImageLoadingPerformance) :
  (loadedImages (metrics t) + 1)%Z = totalImages (metrics t) →
  onImageLoaded h now t
  = (let m2 := {| imageLoadStart := imageLoadStart (metrics t);
                  imageLoadEnd := now;
                  totalImages := totalImages (metrics t);
                  loadedImages := loadedImages (metrics t) + 1 |} in
     ({| metrics := m2; imageCache := imageCache t |}, completionEvents h m2)).
Proof.
  intros Heq. unfold onImageLoaded, reachedTotal; cbn.
  destruct (Z.eqb_spec (loadedImages (metrics t) + 1) (totalImages (metrics t)));
    [reflexivity | done].
Qed.

(** [onImageLoaded] called [length nows] times in a row, none of the calls
    reaching the total: either the counter is already at or past it, or the
    calls stop short of it. *)
Lemma run_loads_miss (h : Host) (nows : list Z) (t : ImageLoadingPerformance) :
  (totalImages (metrics t) <= loadedImages (metrics t)
   ∨ loadedImages (metrics t) + Z.of_nat (length nows)
     < totalImages (metrics t))%Z →
  let r := run h (map OnImageLoaded nows) t in
  metrics (fst r)
  = {| imageLoadStart := imageLoadStart (metrics t);
       imageLoadEnd := imageLoadEnd (metrics t);
       totalImages := totalImages (metrics t);
       loadedImages := loadedImages (metrics t) + Z.of_nat (length nows) |}
  ∧ imageCache (fst r) = imageCache t
  ∧ snd r = []
  ∧ completions h (map OnImageLoaded nows) t = 0.
Proof.
  revert t. induction nows as [|now nows IH]; intros t Hmiss.
  - destruct t as [[st en tot ld] cache]; cbn.
    repeat split; f_equal; lia.
  - cbn [map run completions length entersCompletion step].
    assert ((loadedImages (metrics t) + 1)%Z ≠ totalImages (metrics t))
      as Hne by (cbn [length] in Hmiss; lia).
    rewrite (onImageLoaded_no_completion h now t Hne).
    destruct (Z.eqb_spec (loadedImages (metrics t) + 1) (totalImages (metrics t)));
      [done|].
    set (t1 := {| metrics := _; imageCache := imageCache t |}).
    destruct (IH t1) as (Hm & Hc & He & Hn).
    { subst t1; cbn [metrics loadedImages totalImages length] in *. lia. }
    destruct (run h (map OnImageLoaded nows) t1) as [t2 e2] eqn:Hrun.
    cbn [fst snd] in *. subst e2. rewrite Hm, Hc, Hn. subst t1; cbn.
    repeat split. f_equal. lia.
Qed.

Lemma completionEvents_logs (h : Host) (m : PerformanceMetrics) :
  count_events isLogLoadingComplete (completionEvents h m)
  = (if dev h then 1 else 0).
Proof.
  unfold completionEvents, web_performance.
  destruct h as [web [[c ms [b|]]|] [|]]; destruct web; cbn;
    try destruct ms; reflexivity.
Qed.

Lemma completionEvents_measures (h : Host) (m : PerformanceMetrics) :
  count_events isMeasurement (completionEvents h m)
  = match web_performance h with Some _ => 1 | None => 0 end.
Proof.
  unfold completionEvents, web_performance.
  destruct h as [web [[c ms [b|]]|] [|]]; destruct web; cbn;
    try destruct ms; reflexivity.
Qed.

Lemma startTracking_no_report (h : Host) (now n : Z)
    (t : ImageLoadingPerformance) :
  count_events isLogLoadingComplete (snd (startTracking h now n t)) = 0
  ∧ count_events isMeasurement (snd (startTracking h now n t)) = 0.
Proof.
  unfold startTracking, web_performance; cbn.
  destruct (platform_web h); [|done].
  destruct (window_performance h) as [[[|] ? ?]|]; done.
Qed.

(** [onImageLoaded] always adds one to the loaded count and leaves the
    total alone, whether or not it reaches the total. *)
Lemma onImageLoaded_counts (h : Host) (now : Z) (t : ImageLoadingPerformance) :
  loadedImages (metrics (fst (onImageLoaded h now t)))
  = (loadedImages (metrics t) + 1)%Z
  ∧ totalImages (metrics (fst (onImageLoaded h now t)))
    = totalImages (metrics t).
Proof. unfold onImageLoaded. destruct (reachedTotal _); cbn; done. Qed.

(** [entersCompletion] is the test [onImageLoaded] makes after counting. *)
Lemma entersCompletion_reachedTotal (h : Host) (now : Z)
    (t : ImageLoadingPerformance) :
  entersCompletion (OnImageLoaded now) t
  = reachedTotal (metrics (fst (onImageLoaded h now t))).
Proof.
  destruct (onImageLoaded_counts h now t) as [Hl Ht].
  unfold entersCompletion, reachedTotal. by rewrite Hl, Ht.
Qed.

Lemma run_loads_counts (h : Host) (nows : list Z) (t : ImageLoadingPerformance) :
  loadedImages (metrics (fst (run h (map OnImageLoaded nows) t)))
  = (loadedImages (metrics t) + Z.of_nat (length nows))%Z
  ∧ totalImages (metrics (fst (run h (map OnImageLoaded nows) t)))
    = totalImages (metrics t).
Proof.
  revert t. induction nows as [|now nows IH]; intros t.
  - cbn. split; lia.
  - cbn [map run step length].
    destruct (onImageLoaded_counts h now t) as [Hl Ht].
    destruct (onImageLoaded h now t) as [t1 e1]; cbn [fst] in *.
    destruct (IH t1) as [Hl' Ht'].
    destruct (run h (map OnImageLoaded nows) t1) as [t2 e2]; cbn [fst] in *.
    split; lia.
Qed.

(** Where [getProgress] lies, from the two counters. *)
Lemma getProgress_range (t : ImageLoadingPerformance) :
  (0 <= loadedImages (metrics t))%Z →
  (∃ q : Q, getProgress t = Finite q ∧ (0 <= q)%Q)
  ∧ (in_unit_interval (getProgress t)
     ↔ (totalImages (metrics t) <= 0
        ∨ loadedImages (metrics t) <= totalImages (metrics t))%Z).
Proof.
  intros Hl.
  destruct (Z.lt_ge_cases 0 (totalImages (metrics t))) as [Hpos|Hle].
  - rewrite getProgress_positive by done. split.
    + eexists; split; [reflexivity|]. by apply Qdiv_Z_nonneg.
    + cbn. rewrite Qdiv_Z_le_1 by done. split.
      * intros [_ H]. by right.
      * intros [H|H]; [lia|]. split; [by apply Qdiv_Z_nonneg | done].
  - rewrite getProgress_nonpositive by done. split.
    + exists 0%Q. split; [reflexivity | apply Qle_refl].
    + cbn. split; [intros _; by left | intros _].
      split; [apply Qle_refl | by unfold Qle; cbn].
Qed.

(** ** The claims on the tracking session *)

(** C3.  [getProgress] is the quotient of the loaded count by the total
    when the total is positive and 0 when the total is 0; its result is
    always finite, whereas a quotient by zero never is, so no division by
    zero takes place. *)
Theorem getProgress_quotient_or_zero (t : ImageLoadingPerformance) :
  ((0 < totalImages (metrics t))%Z →
   getProgress t = js_div (loadedImages (metrics t)) (totalImages (metrics t))
   ∧ getProgress t
     = Finite (inject_Z (loadedImages (metrics t))
               / inject_Z (totalImages (metrics t))))
  ∧ (totalImages (metrics t) = 0%Z → getProgress t = Finite 0)
  ∧ is_finite (getProgress t)
  ∧ (∀ a : Z, ¬ is_finite (js_div a 0)).
Proof.
  split; [|split; [|split]].
  - intros Hpos. split; [|by apply getProgress_positive].
    unfold getProgress.
    destruct (Z.ltb_spec 0 (totalImages (metrics t))); [done | lia].
  - intros Hz. apply getProgress_nonpositive. lia.
  - destruct (Z.lt_ge_cases 0 (totalImages (metrics t))) as [Hpos|Hle].
    + by rewrite getProgress_positive.
    + by rewrite getProgress_nonpositive by lia.
  - apply js_div_zero_not_finite.
Qed.

(** C9.  [startTracking] writes the start time, the total and the loaded
    count and nothing else: the snapshot taken afterwards still has the end
    time of the session before, which can lie before the new start. *)
Theorem startTracking_keeps_imageLoadEnd :
  (∀ (h : Host) (now n : Z) (t : ImageLoadingPerformance),
     let m := getMetrics (fst (startTracking h now n t)) in
     imageLoadEnd m = imageLoadEnd (metrics t)
     ∧ imageLoadStart m = now
     ∧ totalImages m = n
     ∧ loadedImages m = 0%Z)
  ∧ (let before :=
       fst (run browser_dev [StartTracking 100 1; OnImageLoaded 150]
              imagePerformance) in
     let m := getMetrics (fst (startTracking browser_dev 900 4 before)) in
     imageLoadEnd m = 150%Z ∧ imageLoadStart m = 900%Z).
Proof.
  split.
  - intros h now n t m. subst m. cbn. repeat split.
  - vm_compute. repeat split.
Qed.

(** C1, as the code has it.  After any sequence of calls on the fresh
    singleton, [getProgress] is a finite number that is not negative; it
    lies between 0 and 1 exactly when the total is not positive or the
    loaded count does not exceed it, which is the case as long as
    [onImageLoaded] was called at most [n] times since [startTracking(n)]. *)
Theorem getProgress_unit_interval_unless_overcounted (h : Host) :
  (∀ cs : list Call,
     let t := fst (run h cs imagePerformance) in
     (∃ q : Q, getProgress t = Finite q ∧ (0 <= q)%Q)
     ∧ (in_unit_interval (getProgress t)
        ↔ (totalImages (metrics t) <= 0
           ∨ loadedImages (metrics t) <= totalImages (metrics t))%Z))
  ∧ (∀ (cs : list Call) (now n : Z) (nows : list Z),
       (Z.of_nat (length nows) <= n)%Z →
       in_unit_interval
         (getProgress
            (fst (run h (cs ++ StartTracking now n :: map OnImageLoaded nows)
                    imagePerformance)))).
Proof.
  split.
  - intros cs t. apply getProgress_range. subst t.
    by apply run_loaded_nonneg.
  - intros cs now n nows Hle. rewrite run_app. cbn [fst run step].
    set (t0 := fst (run h cs imagePerformance)).
    destruct (startTracking h now n t0) as [t1 e1] eqn:Hst.
    assert (loadedImages (metrics t1) = 0%Z ∧ totalImages (metrics t1) = n)
      as [Hl Ht].
    { unfold startTracking in Hst. by inversion Hst. }
    destruct (run_loads_counts h nows t1) as [Hl' Ht'].
    destruct (run h (map OnImageLoaded nows) t1) as [t2 e2]; cbn [fst] in *.
    apply getProgress_range; lia.
Qed.

Lemma getProgress_unit_interval_unless_overcounted_witness :
  in_unit_interval
    (getProgress
       (fst (run browser_dev
               ([OnImageLoaded 5] ++
                StartTracking 10 3 :: map OnImageLoaded [11; 12]%Z)
               imagePerformance))).
Proof.
  apply (proj2 (getProgress_unit_interval_unless_overcounted browser_dev)
           [OnImageLoaded 5] 10%Z 3%Z [11; 12]%Z).
  cbn. lia.
Defined.

(** C1 fails as stated: one image announced and two reported loaded give
    a progress of 2. *)
Lemma getProgress_overcount_exceeds_one :
  getProgress
    (fst (run browser_dev [StartTracking 0 1; OnImageLoaded 1; OnImageLoaded 2]
            imagePerformance))
  = Finite (inject_Z 2 / inject_Z 1)
  ∧ ¬ in_unit_interval
        (getProgress
           (fst (run browser_dev
                   [StartTracking 0 1; OnImageLoaded 1; OnImageLoaded 2]
                   imagePerformance))).
Proof.
  split; [reflexivity|].
  change (getProgress _) with (Finite (inject_Z 2 / inject_Z 1)).
  intros [_ H]. apply (proj1 (Qdiv_Z_le_1 2 1 eq_refl)) in H. lia.
Qed.

(** C2, as the code has it.  For a positive [n], [startTracking(n)]
    followed by exactly [n] calls of [onImageLoaded] leaves the progress at
    1, and exactly one of the calls enters the completion branch: the
    completion line is logged once in a development build, and one duration
    measurement is attempted where the host has a performance timeline. *)
Theorem startTracking_then_n_loads_completes_once
    (h : Host) (t0 : ImageLoadingPerformance) (now n : Z) (nows : list Z) :
  (0 < n)%Z →
  length nows = Z.to_nat n →
  let cs := StartTracking now n :: map OnImageLoaded nows in
  js_is_one (getProgress (fst (run h cs t0)))
  ∧ completions h cs t0 = 1
  ∧ count_events isLogLoadingComplete (snd (run h cs t0))
    = (if dev h then 1 else 0)
  ∧ count_events isMeasurement (snd (run h cs t0))
    = match web_performance h with Some _ => 1 | None => 0 end.
Proof.
  intros Hn Hlen cs. subst cs.
  induction nows as [|now' firsts _] using rev_ind; [cbn in Hlen; lia|].
  rewrite length_app in Hlen; cbn [length] in Hlen.
  rewrite map_app. cbn [map].
  change (StartTracking now n :: map OnImageLoaded firsts ++ [OnImageLoaded now'])
    with ([StartTracking now n] ++ map OnImageLoaded firsts ++ [OnImageLoaded now']).
  rewrite !run_app, !completions_app. cbn [fst snd].
  destruct (startTracking_no_report h now n t0) as [Hlog0 Hms0].
  assert (run h [StartTracking now n] t0
          = (fst (startTracking h now n t0), snd (startTracking h now n t0) ++ []))
    as Hrun1 by (cbn; by destruct (startTracking h now n t0)).
  rewrite Hrun1; cbn [fst snd]. clear Hrun1.
  set (t1 := fst (startTracking h now n t0)).
  assert (loadedImages (metrics t1) = 0%Z ∧ totalImages (metrics t1) = n)
    as [Hl1 Ht1] by done.
  destruct (run_loads_miss h firsts t1) as (Hm2 & _ & He2 & Hc2); [lia|].
  set (t2 := fst (run h (map OnImageLoaded firsts) t1)) in *.
  rewrite He2, Hc2.
  assert ((loadedImages (metrics t2) + 1)%Z = totalImages (metrics t2)) as Hhit
    by (rewrite Hm2; cbn; lia).
  cbn [run step completions entersCompletion].
  rewrite (onImageLoaded_completion h now' t2 Hhit). cbn [fst snd].
  destruct (Z.eqb_spec (loadedImages (metrics t2) + 1) (totalImages (metrics t2)));
    [|done].
  rewrite !app_nil_r, !count_events_app, Hlog0, Hms0.
  rewrite completionEvents_logs, completionEvents_measures.
  repeat split.
  assert (totalImages (metrics t2) = n) as Ht2 by (by rewrite Hm2).
  rewrite getProgress_positive; cbn; [|lia].
  rewrite Hhit. apply Qdiv_Z_diag. lia.
Qed.

Lemma startTracking_then_n_loads_completes_once_witness :
  let cs := StartTracking 0 3 :: map OnImageLoaded [10; 20; 30]%Z in
  js_is_one (getProgress (fst (run browser_dev cs imagePerformance)))
  ∧ completions browser_dev cs imagePerformance = 1
  ∧ count_events isLogLoadingComplete (snd (run browser_dev cs imagePerformance))
    = 1
  ∧ count_events isMeasurement (snd (run browser_dev cs imagePerformance)) = 1.
Proof.
  apply (startTracking_then_n_loads_completes_once
           browser_dev imagePerformance 0%Z 3%Z [10; 20; 30]%Z).
  - lia.
  - reflexivity.
Defined.

(** C2 fails at [n = 0]: after [startTracking(0)] and no call of
    [onImageLoaded] the progress is 0 and nothing has completed. *)
Lemma startTracking_zero_never_completes :
  let cs := StartTracking 0 0 :: map OnImageLoaded [] in
  getProgress (fst (run browser_dev cs imagePerformance)) = Finite 0
  ∧ ¬ js_is_one (getProgress (fst (run browser_dev cs imagePerformance)))
  ∧ completions browser_dev cs imagePerformance = 0
  ∧ count_events isLogLoadingComplete (snd (run browser_dev cs imagePerformance))
    = 0.
Proof.
  cbv zeta. split; [reflexivity|]. split; [|split; reflexivity].
  change (getProgress _) with (Finite 0). cbn. unfold Qeq; cbn. lia.
Qed.

(** C4.  After [startTracking(n)], every call of [onImageLoaded] adds one
    to the loaded count, also past [n]; a call enters the completion branch
    exactly when it makes the loaded count equal to the total, and otherwise
    changes nothing but the loaded count; so once the loaded count exceeds
    the total, further calls never complete, report nothing and leave the
    end time alone. *)
Theorem overcount_never_completes (h : Host) :
  (∀ (t0 : ImageLoadingPerformance) (now n : Z) (nows : list Z),
     let t := fst (run h (StartTracking now n :: map OnImageLoaded nows) t0) in
     loadedImages (metrics t) = Z.of_nat (length nows)
     ∧ totalImages (metrics t) = n)
  ∧ (∀ (now : Z) (t : ImageLoadingPerformance),
       (entersCompletion (OnImageLoaded now) t = true
        ↔ (loadedImages (metrics t) + 1)%Z = totalImages (metrics t))
       ∧ ((loadedImages (metrics t) + 1)%Z = totalImages (metrics t) →
          imageLoadEnd (metrics (fst (onImageLoaded h now t))) = now
          ∧ snd (onImageLoaded h now t)
            = completionEvents h (metrics (fst (onImageLoaded h now t))))
       ∧ ((loadedImages (metrics t) + 1)%Z ≠ totalImages (metrics t) →
          imageLoadEnd (metrics (fst (onImageLoaded h now t)))
          = imageLoadEnd (metrics t)
          ∧ snd (onImageLoaded h now t) = []))
  ∧ (∀ (t : ImageLoadingPerformance) (nows : list Z),
       (totalImages (metrics t) < loadedImages (metrics t))%Z →
       let r := run h (map OnImageLoaded nows) t in
       completions h (map OnImageLoaded nows) t = 0
       ∧ snd r = []
       ∧ imageLoadEnd (metrics (fst r)) = imageLoadEnd (metrics t)
       ∧ (totalImages (metrics (fst r)) < loadedImages (metrics (fst r)))%Z).
Proof.
  split; [|split].
  - intros t0 now n nows t. subst t. cbn [run step].
    destruct (startTracking h now n t0) as [t1 e1] eqn:Hst.
    assert (loadedImages (metrics t1) = 0%Z ∧ totalImages (metrics t1) = n)
      as [Hl Ht] by (unfold startTracking in Hst; by inversion Hst).
    destruct (run_loads_counts h nows t1) as [Hl' Ht'].
    destruct (run h (map OnImageLoaded nows) t1) as [t2 e2]; cbn [fst] in *.
    split; lia.
  - intros now t. split; [|split].
    + cbn. apply Z.eqb_eq.
    + intros Heq. by rewrite (onImageLoaded_completion h now t Heq).
    + intros Hne. by rewrite (onImageLoaded_no_completion h now t Hne).
  - intros t nows Hover r. subst r.
    destruct (run_loads_miss h nows t) as (Hm & _ & He & Hc); [lia|].
    rewrite Hm. cbn. repeat split; [done..|lia].
Qed.

Lemma overcount_never_completes_witness :
  let t := fst (run native_release
                  (StartTracking 0 1 :: map OnImageLoaded [1; 2]%Z)
                  imagePerformance) in
  let r := run native_release (map OnImageLoaded [3; 4; 5]%Z) t in
  completions native_release (map OnImageLoaded [3; 4; 5]%Z) t = 0
  ∧ snd r = []
  ∧ imageLoadEnd (metrics (fst r)) = imageLoadEnd (metrics t)
  ∧ (totalImages (metrics (fst r)) < loadedImages (metrics (fst r)))%Z.
Proof.
  intros t.
  apply (proj2 (proj2 (overcount_never_completes native_release)) t
           [3; 4; 5]%Z).
  vm_compute. reflexivity.
Defined.

(** For C3: the quotient at one image loaded out of four. *)
Lemma getProgress_quotient_or_zero_witness :
  let t := fst (run native_release [StartTracking 0 4; OnImageLoaded 1]
                  imagePerformance) in
  getProgress t = js_div 1 4
  ∧ getProgress t = Finite (inject_Z 1 / inject_Z 4).
Proof.
  intros t. apply (proj1 (getProgress_quotient_or_zero t)).
  vm_compute. reflexivity.
Defined.

End TrackerFacts.

(** * Properties of the cache *)

Module CacheFacts.

Import Tracker Scenarios.

(** ** The ordered set *)

Lemma elem_of_set_add (k x : string) (c : list string) :
  x ∈ set_add k c ↔ x = k ∨ x ∈ c.
Proof.
  unfold set_add. case_bool_decide as Hin.
  - split; [by right | intros [->|?]; done].
  - rewrite elem_of_app, list_elem_of_singleton. tauto.
Qed.

Lemma set_has_set_add (k : string) (c : list string) :
  set_has k (set_add k c) = true.
Proof. apply bool_decide_eq_true, elem_of_set_add. by left. Qed.

Lemma set_add_present (k : string) (c : list string) :
  k ∈ c → set_add k c = c.
Proof. intros Hin. unfold set_add. by rewrite bool_decide_eq_true_2. Qed.

Lemma set_add_fresh (k : string) (c : list string) :
  k ∉ c → set_add k c = c ++ [k].
Proof. intros Hin. unfold set_add. by rewrite bool_decide_eq_false_2. Qed.

Lemma NoDup_set_add (k : string) (c : list string) :
  NoDup c → NoDup (set_add k c).
Proof.
  intros Hnd. unfold set_add. case_bool_decide as Hin; [done|].
  apply NoDup_app. split; [done|]. split; [|apply NoDup_singleton].
  intros x Hx ->%list_elem_of_singleton. done.
Qed.

Lemma length_set_add_le (k : string) (c : list string) :
  length (set_add k c) ≤ S (length c).
Proof.
  unfold set_add. case_bool_decide; [lia|].
  rewrite length_app; cbn. lia.
Qed.

Lemma set_delete_absent (x : string) (c : list string) :
  x ∉ c → set_delete x c = c.
Proof.
  unfold set_delete. induction c as [|y c IH]; intros Hx; [done|].
  apply not_elem_of_cons in Hx as [Hne Hx].
  rewrite filter_cons_True by done. by rewrite IH.
Qed.

(** Deleting the first entry of a duplicate-free set leaves its tail. *)
Lemma set_delete_first (x : string) (c : list string) :
  NoDup (x :: c) → set_delete x (x :: c) = c.
Proof.
  intros [Hx _]%NoDup_cons. unfold set_delete.
  rewrite filter_cons_False by (intros H; by apply H).
  by apply set_delete_absent.
Qed.

(** ** The eviction step *)

Lemma evictIfFull_below (c : list string) :
  length c < maxCacheSize → evictIfFull c = c.
Proof.
  intros Hlt. unfold evictIfFull. rewrite bool_decide_eq_false_2; [done|lia].
Qed.

Lemma evictIfFull_full (x : string) (c : list string) :
  NoDup (x :: c) → maxCacheSize ≤ length (x :: c) → truthy x = true →
  evictIfFull (x :: c) = c.
Proof.
  intros Hnd Hfull Htr. unfold evictIfFull.
  rewrite bool_decide_eq_true_2 by done. cbn [set_first head].
  rewrite Htr. by apply set_delete_first.
Qed.

(** An empty string at the head of the set is never evicted. *)
Lemma evictIfFull_empty_first (c : list string) :
  evictIfFull ("" :: c) = "" :: c.
Proof. unfold evictIfFull. by case_bool_decide. Qed.

(** Eviction removes nothing or exactly the first entry. *)
Lemma evictIfFull_cases (c : list string) :
  NoDup c →
  evictIfFull c = c
  ∨ (maxCacheSize ≤ length c ∧ ∃ x, set_first c = Some x
       ∧ truthy x = true ∧ evictIfFull c = tail c).
Proof.
  intros Hnd. unfold evictIfFull. case_bool_decide as Hfull; [|by left].
  destruct c as [|x c]; [by left|]. cbn [set_first head].
  destruct (truthy x) eqn:Htr; [|by left].
  right. split; [done|]. exists x. by rewrite set_delete_first.
Qed.

Lemma NoDup_evictIfFull (c : list string) : NoDup c → NoDup (evictIfFull c).
Proof.
  intros Hnd. unfold evictIfFull. case_bool_decide; [|done].
  destruct (set_first c) as [x|]; [|done].
  destruct (truthy x); [|done]. by apply NoDup_filter.
Qed.

(** ** Reachable caches have no duplicates *)

Lemma step_NoDup (h : Host) (c : Call) (t : ImageLoadingPerformance) :
  NoDup (imageCache t) → NoDup (imageCache (fst (step h c t))).
Proof.
  intros Hnd. destruct c as [now n|now|src|]; cbn.
  - done.
  - unfold onImageLoaded. by destruct (reachedTotal _).
  - by apply NoDup_set_add, NoDup_evictIfFull.
  - apply NoDup_nil_2.
Qed.

Lemma run_NoDup (h : Host) (cs : list Call) (t : ImageLoadingPerformance) :
  NoDup (imageCache t) → NoDup (imageCache (fst (run h cs t))).
Proof.
  revert t. induction cs as [|c cs IH]; intros t Hnd; cbn; [done|].
  pose proof (step_NoDup h c t Hnd) as H1.
  destruct (step h c t) as [t1 e1]. specialize (IH t1 H1).
  by destruct (run h cs t1).
Qed.

(** ** Keys *)

Lemma truthy_true (s : string) : truthy s = true ↔ s ≠ "".
Proof. destruct s; cbn; split; done. Qed.

Lemma imageKey_uri (s : string) :
  s ≠ "" → imageKey (SrcObject (Some s)) = s.
Proof. intros Hs. cbn. by rewrite (proj2 (truthy_true s) Hs). Qed.

Lemma pretty_N_go_truthy (x : N) (s : string) :
  truthy s = true → truthy (pretty_N_go x s) = true.
Proof.
  revert s. induction (N.lt_wf_0 x) as [x _ IH]; intros s Hs.
  destruct (N.eq_dec x 0%N) as [->|Hx]; [by rewrite pretty_N_go_0|].
  rewrite pretty_N_go_step by lia. apply IH; [|done].
  apply N.div_lt; lia.
Qed.

(** [String(n)] is never empty. *)
Lemma pretty_Z_truthy (n : Z) : truthy (pretty n) = true.
Proof.
  destruct n as [|p|p]; [done| |done].
  change (pretty (Z.pos p)) with (pretty (N.pos p)).
  unfold pretty, pretty_N. case_decide; [done|].
  rewrite pretty_N_go_step by lia. by apply pretty_N_go_truthy.
Qed.

(** Among the sources that are not arrays, only the plain empty string has
    an empty key. *)
Lemma imageKey_nonempty (src : ImageSource) :
  src ≠ SrcString "" → (∀ items, src ≠ SrcArray items) → imageKey src ≠ "".
Proof.
  intros Hsrc Harr. apply truthy_true.
  destruct src as [s|[u|]|n| | |items]; cbn; try done.
  - destruct s; [done | reflexivity].
  - by destruct (truthy u) eqn:Hu.
  - apply pretty_Z_truthy.
  - by destruct (Harr items).
Qed.

(** The key of an asset id is never empty. *)
Lemma imageKey_number_nonempty (n : Z) : imageKey (SrcNumber n) ≠ "".
Proof. by apply imageKey_nonempty. Qed.

(** ** The size limit, when no key is empty *)

Lemma cacheImage_keeps_limit (src : ImageSource) (t : ImageLoadingPerformance) :
  imageKey src ≠ "" →
  NoDup (imageCache t) ∧ length (imageCache t) ≤ maxCacheSize
    ∧ Forall (λ k, k ≠ "") (imageCache t) →
  NoDup (imageCache (cacheImage src t))
  ∧ length (imageCache (cacheImage src t)) ≤ maxCacheSize
  ∧ Forall (λ k, k ≠ "") (imageCache (cacheImage src t)).
Proof.
  intros Hk (Hnd & Hlen & Hne). unfold cacheImage; cbn [imageCache].
  split; [by apply NoDup_set_add, NoDup_evictIfFull|].
  assert (length (evictIfFull (imageCache t)) < maxCacheSize
          ∧ Forall (λ k, k ≠ "") (evictIfFull (imageCache t))) as [Hlt Hne'].
  { destruct (decide (length (imageCache t) < maxCacheSize)) as [Hlt|Hge].
    - by rewrite evictIfFull_below.
    - destruct (imageCache t) as [|x c]; [cbn in Hge; unfold maxCacheSize in Hge; lia|].
      apply Forall_cons in Hne as [Hx Hc].
      rewrite evictIfFull_full; [|done|lia|by apply truthy_true].
      split; [cbn in Hlen; lia | done]. }
  split.
  - pose proof (length_set_add_le (imageKey src) (evictIfFull (imageCache t))). lia.
  - apply Forall_forall. intros x [->|Hx]%elem_of_set_add; [done|].
    by eapply Forall_forall in Hne'.
Qed.

Lemma run_cache_limit (h : Host) (cs : list Call) (t : ImageLoadingPerformance) :
  (∀ src, CacheImage src ∈ cs → imageKey src ≠ "") →
  NoDup (imageCache t) ∧ length (imageCache t) ≤ maxCacheSize
    ∧ Forall (λ k, k ≠ "") (imageCache t) →
  NoDup (imageCache (fst (run h cs t)))
  ∧ length (imageCache (fst (run h cs t))) ≤ maxCacheSize
  ∧ Forall (λ k, k ≠ "") (imageCache (fst (run h cs t))).
Proof.
  revert t. induction cs as [|c cs IH]; intros t Hsrcs Hinv; cbn; [done|].
  assert (NoDup (imageCache (fst (step h c t)))
          ∧ length (imageCache (fst (step h c t))) ≤ maxCacheSize
          ∧ Forall (λ k, k ≠ "") (imageCache (fst (step h c t)))) as H1.
  { destruct c as [now n|now|src|]; cbn.
    - done.
    - unfold onImageLoaded. by destruct (reachedTotal _).
    - apply cacheImage_keeps_limit; [|done].
      apply Hsrcs. by left.
    - split; [apply NoDup_nil_2|]. split; [unfold maxCacheSize; lia | done]. }
  destruct (step h c t) as [t1 e1]. cbn [fst] in H1.
  specialize (IH t1). destruct (run h cs t1) as [t2 e2]. cbn [fst] in *.
  apply IH; [|done]. intros src Hin. apply Hsrcs. by right.
Qed.

(** At capacity a new identifier takes the place of the oldest one. *)
Lemma cacheImage_fresh_at_capacity
    (src : ImageSource) (t : ImageLoadingPerformance) (oldest : string) :
  NoDup (imageCache t) →
  length (imageCache t) = maxCacheSize →
  set_first (imageCache t) = Some oldest →
  oldest ≠ "" →
  imageKey src ∉ imageCache t →
  imageCache (cacheImage src t) = tail (imageCache t) ++ [imageKey src]
  ∧ length (imageCache (cacheImage src t)) = maxCacheSize.
Proof.
  intros Hnd Hlen Hfirst Hne Hin. unfold cacheImage; cbn [imageCache].
  destruct (imageCache t) as [|x c]; [done|].
  cbn in Hfirst. injection Hfirst as ->.
  rewrite evictIfFull_full; [|done|lia|by apply truthy_true].
  apply not_elem_of_cons in Hin as [_ Hin].
  rewrite set_add_fresh by done. cbn [tail]. split; [done|].
  rewrite length_app. cbn in *. lia.
Qed.

(** ** The claims on the cache *)

(** C6, as the code has it.  For a string [s] that is not empty, the plain
    string and the object whose [uri] is [s] have the same key, so
    [isImageCached] gives the same answer for both in every state, and the
    answer is [true] once either form has been cached. *)
Theorem isImageCached_string_and_uri_agree
    (s : string) (src : ImageSource) (t : ImageLoadingPerformance) :
  s ≠ "" →
  src = SrcString s ∨ src = SrcObject (Some s) →
  imageKey (SrcString s) = imageKey (SrcObject (Some s))
  ∧ isImageCached (SrcString s) t = isImageCached (SrcObject (Some s)) t
  ∧ isImageCached (SrcString s) (cacheImage src t)
    = isImageCached (SrcObject (Some s)) (cacheImage src t)
  ∧ isImageCached (SrcString s) (cacheImage src t) = true.
Proof.
  intros Hs Hsrc. unfold isImageCached. rewrite (imageKey_uri s Hs).
  cbn [imageKey]. repeat split.
  assert (imageKey src = s) as Hk.
  { destruct Hsrc as [->| ->]; [done | by apply imageKey_uri]. }
  unfold cacheImage; cbn [imageCache]. rewrite Hk. apply set_has_set_add.
Qed.

Lemma isImageCached_string_and_uri_agree_witness :
  isImageCached (SrcString "a") (cacheImage (SrcObject (Some "a")) imagePerformance)
  = true.
Proof.
  apply (isImageCached_string_and_uri_agree "a" (SrcObject (Some "a"))
           imagePerformance).
  - discriminate.
  - right. reflexivity.
Defined.

(** C6 fails for the empty string: an object whose [uri] is empty falls
    back to the key ["[object Object]"], so the two forms disagree after
    either one has been cached. *)
Lemma isImageCached_empty_uri_disagrees :
  (let t := cacheImage (SrcString "") imagePerformance in
   isImageCached (SrcString "") t = true
   ∧ isImageCached (SrcObject (Some "")) t = false)
  ∧ (let t := cacheImage (SrcObject (Some "")) imagePerformance in
     isImageCached (SrcString "") t = false
     ∧ isImageCached (SrcObject (Some "")) t = true).
Proof. vm_compute. repeat split. Qed.

(** C5 at the input on which the code misses it.  With the empty string
    cached first and the asset ids 1 to 49 after it the set holds 50
    identifiers; caching a 51st distinct one evicts nothing, because the
    oldest entry, the empty string, is falsy, and the set then holds 51. *)
Theorem cache_exceeds_limit_when_oldest_is_empty :
  let t := cached (SrcString "" :: numbered 1 49) in
  let t' := cacheImage (SrcNumber 50) t in
  length (imageCache t) = 50
  ∧ set_first (imageCache t) = Some ""
  ∧ isImageCached (SrcNumber 50) t = false
  ∧ imageCache t' = imageCache t ++ ["50"]
  ∧ length (imageCache t') = 51
  ∧ maxCacheSize < length (imageCache t').
Proof. vm_compute. repeat split; lia. Qed.

(** C10 at the input on which the code misses it.  The set holds 50
    identifiers, the oldest being the empty string; caching the asset id 2
    again, which is present and not the oldest, evicts nothing and the set
    keeps its 50 entries. *)
Theorem recache_keeps_empty_oldest :
  let t := cached (SrcString "" :: numbered 1 49) in
  let t' := cacheImage (SrcNumber 2) t in
  length (imageCache t) = 50
  ∧ set_first (imageCache t) = Some ""
  ∧ isImageCached (SrcNumber 2) t = true
  ∧ imageCache t' = imageCache t
  ∧ length (imageCache t') = 50.
Proof. vm_compute. repeat split. Qed.

(** Away from that input C10 holds: at capacity, caching again an
    identifier that is present and is not the oldest entry evicts the
    oldest entry, when that entry is not the empty string, and the set
    shrinks by one. *)
Lemma recache_at_capacity_evicts_oldest
    (src : ImageSource) (t : ImageLoadingPerformance) (oldest : string) :
  NoDup (imageCache t) →
  length (imageCache t) = maxCacheSize →
  set_first (imageCache t) = Some oldest →
  oldest ≠ "" →
  imageKey src ∈ imageCache t →
  imageKey src ≠ oldest →
  imageCache (cacheImage src t) = tail (imageCache t)
  ∧ (oldest ∉ imageCache (cacheImage src t))
  ∧ length (imageCache (cacheImage src t)) = 49.
Proof.
  intros Hnd Hlen Hfirst Hne Hin Hk. unfold cacheImage; cbn [imageCache].
  destruct (imageCache t) as [|x c]; [done|].
  cbn in Hfirst. injection Hfirst as ->.
  rewrite evictIfFull_full; [|done|lia|by apply truthy_true].
  apply elem_of_cons in Hin as [?|Hin]; [done|].
  rewrite set_add_present by done. cbn [tail].
  split; [done|]. split; [by apply NoDup_cons in Hnd as [? _]|].
  cbn in Hlen. unfold maxCacheSize in Hlen. lia.
Qed.

(** C7, as the code has it.  Eviction, when it happens, removes the first
    entry in iteration order and nothing else.  Caching an identifier that
    is already present leaves it where it is, and leaves the whole set as it
    is below capacity, unless the set is at capacity and that identifier is
    the oldest entry: the identifier is last afterwards only if it was last
    before.  In the case left out, an oldest identifier that is not the
    empty string is evicted and inserted again, behind all the others.  So
    the policy is oldest-inserted-first, not least recently used. *)
Theorem recache_does_not_refresh_order :
  (∀ (src : ImageSource) (t : ImageLoadingPerformance),
     NoDup (imageCache t) →
     imageCache (cacheImage src t) = set_add (imageKey src) (imageCache t)
     ∨ (maxCacheSize ≤ length (imageCache t)
        ∧ imageCache (cacheImage src t)
          = set_add (imageKey src) (tail (imageCache t))))
  ∧ (∀ (src : ImageSource) (t : ImageLoadingPerformance),
       NoDup (imageCache t) →
       imageKey src ∈ imageCache t →
       ¬ (maxCacheSize ≤ length (imageCache t)
          ∧ set_first (imageCache t) = Some (imageKey src)) →
       (imageCache (cacheImage src t) = imageCache t
        ∨ imageCache (cacheImage src t) = tail (imageCache t))
       ∧ (length (imageCache t) < maxCacheSize →
          imageCache (cacheImage src t) = imageCache t)
       ∧ imageKey src ∈ imageCache (cacheImage src t)
       ∧ (last (imageCache (cacheImage src t)) = Some (imageKey src) →
          last (imageCache t) = Some (imageKey src)))
  ∧ (∀ (src : ImageSource) (t : ImageLoadingPerformance),
       NoDup (imageCache t) →
       maxCacheSize ≤ length (imageCache t) →
       set_first (imageCache t) = Some (imageKey src) →
       imageKey src ≠ "" →
       imageCache (cacheImage src t)
       = tail (imageCache t) ++ [imageKey src]
       ∧ last (imageCache (cacheImage src t)) = Some (imageKey src)).
Proof.
  split; [|split].
  - intros src t Hnd. unfold cacheImage; cbn [imageCache].
    destruct (evictIfFull_cases (imageCache t) Hnd)
      as [->|(Hfull & x & _ & _ & ->)]; [by left | by right].
  - intros src t Hnd Hin Hexc. unfold cacheImage; cbn [imageCache].
    assert (length (imageCache t) < maxCacheSize
            → evictIfFull (imageCache t) = imageCache t) as Hbelow
      by apply evictIfFull_below.
    destruct (evictIfFull_cases (imageCache t) Hnd)
      as [Hev|(Hfull & x & Hfirst & _ & Hev)]; rewrite Hev.
    + rewrite set_add_present by done. repeat split; auto.
    + destruct (imageCache t) as [|y c]; [done|].
      cbn in Hfirst. injection Hfirst as ->. cbn [tail] in *.
      apply elem_of_cons in Hin as [Hk|Hin].
      { destruct Hexc. split; [done|]. cbn. by rewrite Hk. }
      rewrite set_add_present by done. repeat split; auto.
      * intros Hlt. lia.
      * intros Hlast. rewrite last_cons, Hlast. done.
  - intros src t Hnd Hfull Hfirst Hne. unfold cacheImage; cbn [imageCache].
    destruct (imageCache t) as [|x c]; [done|].
    cbn in Hfirst. injection Hfirst as ->.
    rewrite evictIfFull_full; [|done|done|by apply truthy_true].
    apply NoDup_cons in Hnd as [Hk _].
    rewrite set_add_fresh by done. cbn [tail]. split; [done|].
    apply last_snoc.
Qed.

Lemma recache_does_not_refresh_order_witness :
  (let t := cached (numbered 1 3) in
   imageCache (cacheImage (SrcNumber 2) t) = ["1"; "2"; "3"])
  ∧ (let t := cached (numbered 1 50) in
     last (imageCache (cacheImage (SrcNumber 1) t)) = Some "1").
Proof.
  split.
  - intros t.
    destruct (proj1 (proj2 recache_does_not_refresh_order) (SrcNumber 2) t)
      as (_ & Hsame & _).
    + apply (bool_decide_unpack _). vm_compute. exact I.
    + apply (bool_decide_unpack _). vm_compute. exact I.
    + intros [Hfull _]. vm_compute in Hfull. lia.
    + apply Hsame. vm_compute. lia.
  - intros t.
    apply (proj2 (proj2 recache_does_not_refresh_order) (SrcNumber 1) t).
    + apply (bool_decide_unpack _). vm_compute. exact I.
    + vm_compute. lia.
    + vm_compute. reflexivity.
    + discriminate.
Defined.

(** C7 fails when the set is at capacity and the identifier cached again is
    the oldest entry: it is evicted and inserted again, which moves it from
    the first to the last position. *)
Lemma recache_oldest_at_capacity_moves_it_last :
  let t := cached (numbered 1 50) in
  let t' := cacheImage (SrcNumber 1) t in
  length (imageCache t) = 50
  ∧ isImageCached (SrcNumber 1) t = true
  ∧ set_first (imageCache t) = Some "1"
  ∧ last (imageCache t) = Some "50"
  ∧ set_first (imageCache t') = Some "2"
  ∧ last (imageCache t') = Some "1".
Proof. vm_compute. repeat split. Qed.

(** Oldest-inserted-first in action: "1" is cached again just before the
    set fills up, and is still the first entry to go, while "2", which was
    not touched since, stays. *)
Example recached_entry_is_still_evicted_first :
  let t := cached (numbered 1 49 ++ [SrcNumber 1] ++ numbered 50 2) in
  length (imageCache t) = 50
  ∧ isImageCached (SrcNumber 1) t = false
  ∧ isImageCached (SrcNumber 2) t = true
  ∧ set_first (imageCache t) = Some "2".
Proof. vm_compute. repeat split. Qed.

End CacheFacts.

(** * Properties of the lazy image component *)

Module LazyImageFacts.

Import Tracker LazyImage.

(** C8.  When the image fails to load, [handleImageError] sets the error
    flag; the next render shows the error placeholder and no image, whether
    or not the source is cached; the error callback, when one was supplied,
    is invoked exactly once; and the tracker is left as it was, so the
    loaded count does not move and no tracker call is made. *)
Theorem handleImageError_shows_error_placeholder
    (p : LazyImageProps) (s : State) (t : ImageLoadingPerformance) :
  let '(s', t', effects) := handleImageError p s t in
  hasError s' = true
  ∧ ErrorPlaceholderNode ∈ render p s' (isImageCached (source p) t')
  ∧ List.filter isImage (render p s' (isImageCached (source p) t')) = []
  ∧ length (List.filter isInvokeOnError effects) = (if onError p then 1 else 0)
  ∧ t' = t
  ∧ loadedImages (metrics t') = loadedImages (metrics t)
  ∧ (∀ e : Event, HostEvent e ∉ effects).
Proof.
  cbn. split; [done|]. split; [|split; [|split; [|split; [done|split; [done|]]]]].
  - unfold render; cbn. rewrite andb_false_r.
    destruct (shouldLoad s); cbn; [left | right; left].
  - unfold render; cbn. rewrite !andb_false_r. by destruct (shouldLoad s).
  - by destruct (onError p).
  - intros e. destruct (onError p).
    + intros H. apply elem_of_cons in H as [?|H]; [done|].
      apply elem_of_cons in H as [?|H]; [done|]. by apply elem_of_nil in H.
    + intros H. apply elem_of_cons in H as [?|H]; [done|].
      by apply elem_of_nil in H.
Qed.

(** The load path, for contrast: it does count the image. *)
Lemma handleImageLoad_counts (h : Host) (now : Z)
    (p : LazyImageProps) (s : State) (t : ImageLoadingPerformance) :
  let '(s', t', _) := handleImageLoad h now p s t in
  isLoaded s' = true
  ∧ loadedImages (metrics t') = (loadedImages (metrics t) + 1)%Z
  ∧ isImageCached (source p) t' = true.
Proof.
  unfold handleImageLoad.
  pose proof (TrackerFacts.onImageLoaded_counts h now (cacheImage (source p) t))
    as [Hl _].
  destruct (onImageLoaded h now (cacheImage (source p) t)) as [t2 es] eqn:Hon.
  cbn [fst] in Hl. split; [done|]. split; [done|].
  unfold isImageCached.
  assert (imageCache t2 = imageCache (cacheImage (source p) t)) as ->.
  { unfold onImageLoaded in Hon. destruct (reachedTotal _); by inversion Hon. }
  apply CacheFacts.set_has_set_add.
Qed.

End LazyImageFacts.

(** * More on the tracking session *)

Module SessionFacts.

Import Tracker Scenarios Observations TrackerFacts.

(** A session that reaches its total: [startTracking(n)], then [n - 1]
    loads, the load at time [x], and any number of loads after it. *)
Lemma run_session_hit (h : Host) (t0 : ImageLoadingPerformance)
    (now n : Z) (firsts : list Z) (x : Z) (rest : list Z) :
  (Z.of_nat (length firsts) + 1)%Z = n →
  let cs := StartTracking now n :: map OnImageLoaded (firsts ++ x :: rest) in
  let done := {| imageLoadStart := now; imageLoadEnd := x;
                 totalImages := n; loadedImages := n |} in
  metrics (fst (run h cs t0))
  = {| imageLoadStart := now; imageLoadEnd := x; totalImages := n;
       loadedImages := n + Z.of_nat (length rest) |}
  ∧ imageCache (fst (run h cs t0)) = imageCache t0
  ∧ snd (run h cs t0)
    = snd (startTracking h now n t0) ++ completionEvents h done
  ∧ completions h cs t0 = 1.
Proof.
  intros Hn cs done. subst cs.
  rewrite map_app. cbn [map].
  change (StartTracking now n
            :: map OnImageLoaded firsts ++ OnImageLoaded x :: map OnImageLoaded rest)
    with ([StartTracking now n] ++ map OnImageLoaded firsts
            ++ [OnImageLoaded x] ++ map OnImageLoaded rest).
  rewrite !run_app, !completions_app. cbn [fst snd].
  assert (run h [StartTracking now n] t0
          = (fst (startTracking h now n t0), snd (startTracking h now n t0) ++ []))
    as Hrun1 by (cbn; by destruct (startTracking h now n t0)).
  rewrite Hrun1; cbn [fst snd]. clear Hrun1.
  set (t1 := fst (startTracking h now n t0)).
  assert (metrics t1 = {| imageLoadStart := now;
                          imageLoadEnd := imageLoadEnd (metrics t0);
                          totalImages := n; loadedImages := 0 |}
          ∧ imageCache t1 = imageCache t0) as [Hm1 Hc1] by done.
  destruct (run_loads_miss h firsts t1) as (Hm2 & Hc2 & He2 & Hn2).
  { rewrite Hm1; cbn. lia. }
  set (t2 := fst (run h (map OnImageLoaded firsts) t1)) in *.
  rewrite He2, Hn2. rewrite Hm1 in Hm2; cbn in Hm2.
  assert ((loadedImages (metrics t2) + 1)%Z = totalImages (metrics t2)) as Hhit
    by (rewrite Hm2; cbn; lia).
  assert (run h [OnImageLoaded x] t2
          = (fst (onImageLoaded h x t2), snd (onImageLoaded h x t2) ++ []))
    as Hrun3 by (cbn; by destruct (onImageLoaded h x t2)).
  rewrite Hrun3; cbn [fst snd]. clear Hrun3.
  assert (completions h [OnImageLoaded x] t2 = 1) as ->.
  { cbn. destruct (Z.eqb_spec (loadedImages (metrics t2) + 1)
                     (totalImages (metrics t2))); done. }
  rewrite (onImageLoaded_completion h x t2 Hhit). cbn [fst snd].
  set (t3 := {| metrics := _; imageCache := imageCache t2 |}).
  destruct (run_loads_miss h rest t3) as (Hm4 & Hc4 & He4 & Hn4).
  { left. subst t3; cbn. lia. }
  rewrite Hm4, Hc4, He4, Hn4. subst t3; cbn. rewrite Hm2; cbn.
  rewrite !app_nil_r.
  replace (0 + Z.of_nat (length firsts) + 1)%Z with n by lia.
  repeat split; try (f_equal; lia); congruence.
Qed.

(** A session that does not reach its total. *)
Lemma run_session_miss (h : Host) (t0 : ImageLoadingPerformance)
    (now n : Z) (nows : list Z) :
  (n <= 0 ∨ Z.of_nat (length nows) < n)%Z →
  let cs := StartTracking now n :: map OnImageLoaded nows in
  metrics (fst (run h cs t0))
  = {| imageLoadStart := now; imageLoadEnd := imageLoadEnd (metrics t0);
       totalImages := n; loadedImages := Z.of_nat (length nows) |}
  ∧ imageCache (fst (run h cs t0)) = imageCache t0
  ∧ snd (run h cs t0) = snd (startTracking h now n t0)
  ∧ completions h cs t0 = 0.
Proof.
  intros Hmiss cs. subst cs. cbn [run step completions entersCompletion].
  set (t1 := fst (startTracking h now n t0)).
  assert (metrics t1 = {| imageLoadStart := now;
                          imageLoadEnd := imageLoadEnd (metrics t0);
                          totalImages := n; loadedImages := 0 |}
          ∧ imageCache t1 = imageCache t0) as [Hm1 Hc1] by done.
  destruct (run_loads_miss h nows t1) as (Hm2 & Hc2 & He2 & Hn2).
  { rewrite Hm1; cbn. lia. }
  destruct (startTracking h now n t0) as [t1' e1] eqn:Hst. cbn [fst snd] in *.
  subst t1. destruct (run h (map OnImageLoaded nows) t1') as [t2 e2].
  cbn [fst snd] in *. subst e2. rewrite Hm2, Hm1, Hc2, Hc1, Hn2, app_nil_r. cbn.
  done.
Qed.

Lemma startTracking_logs_nothing (h : Host) (now n : Z)
    (t : ImageLoadingPerformance) :
  List.filter isLogLoadingComplete (snd (startTracking h now n t)) = [].
Proof.
  unfold startTracking, web_performance; cbn.
  destruct (platform_web h); [|done].
  destruct (window_performance h) as [[[|] ? ?]|]; done.
Qed.

Lemma completionEvents_log (h : Host) (m : PerformanceMetrics) :
  List.filter isLogLoadingComplete (completionEvents h m)
  = if dev h
    then [LogLoadingComplete (imageLoadEnd m - imageLoadStart m) (totalImages m)]
    else [].
Proof.
  unfold completionEvents, web_performance.
  destruct h as [web [[c ms [b|]]|] [|]]; destruct web; cbn;
    try destruct ms; reflexivity.
Qed.

(** Splits the loads of a session at the one that reaches the total. *)
Lemma split_at_nth_load (n : Z) (nows : list Z) :
  (0 < n <= Z.of_nat (length nows))%Z →
  ∃ firsts x rest,
    nows = firsts ++ x :: rest
    ∧ (Z.of_nat (length firsts) + 1)%Z = n
    ∧ nows !! Z.to_nat (n - 1) = Some x.
Proof.
  intros Hn.
  destruct (lookup_lt_is_Some_2 nows (Z.to_nat (n - 1))) as [x Hx]; [lia|].
  exists (take (Z.to_nat (n - 1)) nows), x, (drop (S (Z.to_nat (n - 1))) nows).
  split; [by rewrite take_drop_middle|]. split; [|done].
  rewrite length_take. lia.
Qed.

(** ** How a session ends *)

(** A session, that is [startTracking(n)] followed by any number of loads,
    completes once if [n] is positive and at least [n] loads arrive, and
    never otherwise, and no session completes twice; as the calls
    themselves show it: the completion line is logged once in a development
    build, or not at all; the duration is measured once where there is a
    timeline, or not at all; and the end time is the time of the [n]-th
    load, or what it was before the session. *)
Theorem session_completes_once_or_never
    (h : Host) (t0 : ImageLoadingPerformance) (now n : Z) (nows : list Z) :
  let cs := StartTracking now n :: map OnImageLoaded nows in
  let reached := ((0 <? n) && (n <=? Z.of_nat (length nows)))%Z in
  completions h cs t0 = (if reached then 1 else 0)
  ∧ count_events isLogLoadingComplete (snd (run h cs t0))
    = (if reached && dev h then 1 else 0)
  ∧ count_events isMeasurement (snd (run h cs t0))
    = (if reached
       then match web_performance h with Some _ => 1 | None => 0 end
       else 0)
  ∧ imageLoadEnd (metrics (fst (run h cs t0)))
    = (if reached then default 0%Z (nows !! Z.to_nat (n - 1))
       else imageLoadEnd (metrics t0)).
Proof.
  intros cs reached. subst cs reached.
  destruct (startTracking_no_report h now n t0) as [Hlog0 Hms0].
  assert ((n <= 0 ∨ Z.of_nat (length nows) < n)%Z →
          completions h (StartTracking now n :: map OnImageLoaded nows) t0 = 0
          ∧ count_events isLogLoadingComplete
              (snd (run h (StartTracking now n :: map OnImageLoaded nows) t0)) = 0
          ∧ count_events isMeasurement
              (snd (run h (StartTracking now n :: map OnImageLoaded nows) t0)) = 0
          ∧ imageLoadEnd
              (metrics (fst (run h (StartTracking now n :: map OnImageLoaded nows) t0)))
            = imageLoadEnd (metrics t0)) as Hmiss.
  { intros Hm.
    destruct (run_session_miss h t0 now n nows Hm) as (-> & _ & -> & ->).
    done. }
  destruct (Z.ltb_spec 0 n) as [Hpos|Hnonpos]; cbn [andb]; [|apply Hmiss; lia].
  destruct (Z.leb_spec n (Z.of_nat (length nows))) as [Hle|Hgt];
    [|apply Hmiss; lia].
  destruct (split_at_nth_load n nows) as (firsts & x & rest & -> & Hf & ->);
    [lia|].
  destruct (run_session_hit h t0 now n firsts x rest Hf) as (-> & _ & -> & ->).
  rewrite !count_events_app, Hlog0, Hms0.
  rewrite completionEvents_logs, completionEvents_measures. cbn.
  by destruct (dev h).
Qed.

(** When a session of [n] images completes, the end time stored is the time
    of the [n]-th load, whatever arrives later, and a development build logs
    one completion line, with that time minus the start time and [n]. *)
Theorem completed_session_records_nth_load
    (h : Host) (t0 : ImageLoadingPerformance) (now n : Z) (nows : list Z)
    (x : Z) :
  (0 < n)%Z →
  nows !! Z.to_nat (n - 1) = Some x →
  let r := run h (StartTracking now n :: map OnImageLoaded nows) t0 in
  imageLoadEnd (getMetrics (fst r)) = x
  ∧ imageLoadStart (getMetrics (fst r)) = now
  ∧ List.filter isLogLoadingComplete (snd r)
    = if dev h then [LogLoadingComplete (x - now) n] else [].
Proof.
  intros Hpos Hx r. subst r.
  assert (Z.to_nat (n - 1) < length nows) as Hlt
    by (apply lookup_lt_is_Some; eauto).
  destruct (split_at_nth_load n nows) as (firsts & x' & rest & -> & Hf & Hx');
    [lia|].
  assert (x' = x) as -> by congruence.
  destruct (run_session_hit h t0 now n firsts x rest Hf) as (Hm & _ & He & _).
  unfold getMetrics. rewrite Hm, He.
  rewrite List.filter_app, startTracking_logs_nothing, completionEvents_log.
  cbn. done.
Qed.

Lemma completed_session_records_nth_load_witness :
  let r := run browser_dev
             (StartTracking 100 2 :: map OnImageLoaded [130; 170; 190]%Z)
             imagePerformance in
  imageLoadEnd (getMetrics (fst r)) = 170%Z
  ∧ imageLoadStart (getMetrics (fst r)) = 100%Z
  ∧ List.filter isLogLoadingComplete (snd r) = [LogLoadingComplete 70 2].
Proof.
  apply (completed_session_records_nth_load browser_dev imagePerformance
           100%Z 2%Z [130; 170; 190]%Z 170%Z).
  - lia.
  - reflexivity.
Defined.

(** With a positive total [n], the progress after [k] loads is [k / n]. *)
Theorem progress_is_loads_over_total
    (h : Host) (t0 : ImageLoadingPerformance) (now n : Z) (nows : list Z) :
  (0 < n)%Z →
  getProgress (fst (run h (StartTracking now n :: map OnImageLoaded nows) t0))
  = Finite (inject_Z (Z.of_nat (length nows)) / inject_Z n).
Proof.
  intros Hpos. cbn [run step].
  destruct (startTracking h now n t0) as [t1 e1] eqn:Hst.
  assert (loadedImages (metrics t1) = 0%Z ∧ totalImages (metrics t1) = n)
    as [Hl Ht] by (unfold startTracking in Hst; by inversion Hst).
  destruct (run_loads_counts h nows t1) as [Hl' Ht'].
  destruct (run h (map OnImageLoaded nows) t1) as [t2 e2]; cbn [fst] in *.
  rewrite getProgress_positive by lia. rewrite Hl', Ht', Hl, Ht.
  by rewrite Z.add_0_l.
Qed.

Lemma progress_is_loads_over_total_witness :
  getProgress
    (fst (run native_release (StartTracking 0 3 :: map OnImageLoaded [5; 6]%Z)
            imagePerformance))
  = Finite (inject_Z 2 / inject_Z 3).
Proof.
  apply (progress_is_loads_over_total native_release imagePerformance
           0%Z 3%Z [5; 6]%Z).
  lia.
Defined.

(** While the total is not positive, as on the fresh singleton before any
    [startTracking] and after [startTracking(0)], loads are counted but
    nothing else happens: no completion, no event, the end time untouched
    and a progress of 0. *)
Theorem loads_without_positive_total_are_inert
    (h : Host) (t : ImageLoadingPerformance) (nows : list Z) :
  (totalImages (metrics t) <= 0)%Z →
  (0 <= loadedImages (metrics t))%Z →
  let r := run h (map OnImageLoaded nows) t in
  completions h (map OnImageLoaded nows) t = 0
  ∧ snd r = []
  ∧ loadedImages (metrics (fst r))
    = (loadedImages (metrics t) + Z.of_nat (length nows))%Z
  ∧ imageLoadEnd (metrics (fst r)) = imageLoadEnd (metrics t)
  ∧ getProgress (fst r) = Finite 0.
Proof.
  intros Ht Hl r. subst r.
  destruct (run_loads_miss h nows t) as (Hm & _ & He & Hn); [lia|].
  rewrite Hn, He. repeat split; try (by rewrite Hm).
  apply getProgress_nonpositive. by rewrite Hm.
Qed.

Lemma loads_without_positive_total_are_inert_witness :
  let r := run browser_dev (map OnImageLoaded [1; 2; 3]%Z) imagePerformance in
  completions browser_dev (map OnImageLoaded [1; 2; 3]%Z) imagePerformance = 0
  ∧ snd r = []
  ∧ loadedImages (metrics (fst r)) = (0 + Z.of_nat 3)%Z
  ∧ imageLoadEnd (metrics (fst r)) = 0%Z
  ∧ getProgress (fst r) = Finite 0.
Proof.
  apply (loads_without_positive_total_are_inert browser_dev imagePerformance
           [1; 2; 3]%Z).
  - cbn. lia.
  - cbn. lia.
Defined.

End SessionFacts.

(** * What the host sees *)

Module HostFacts.

Import Tracker Scenarios Observations TrackerFacts SessionFacts.

(** A property of the events of every single call holds of the events of
    every run. *)
Lemma run_events_Forall (P : Event → Prop) (h : Host) :
  (∀ c t, Forall P (snd (step h c t))) →
  ∀ cs t, Forall P (snd (run h cs t)).
Proof.
  intros Hstep cs. induction cs as [|c cs IH]; intros t; cbn; [done|].
  specialize (Hstep c t). destruct (step h c t) as [t1 e1].
  specialize (IH t1). destruct (run h cs t1) as [t2 e2].
  cbn [snd] in *. by apply Forall_app.
Qed.

Lemma step_events_gated (h : Host) (c : Call) (t : ImageLoadingPerformance) :
  Forall (gated h) (snd (step h c t)).
Proof.
  destruct c as [now n|now|src|]; cbn.
  - unfold web_performance.
    destruct h as [[|] [[[|] mt mem]|] dv]; cbn;
      repeat constructor; cbn; try done; eauto.
  - unfold onImageLoaded. destruct (reachedTotal _); cbn [snd]; [|done].
    unfold completionEvents, web_performance.
    destruct h as [[|] [[ct [|] [b|]]|] [|]]; cbn;
      repeat constructor; cbn; try done; eauto.
  - done.
  - destruct (dev h) eqn:Hdev; repeat constructor; cbn; try done.
Qed.

(** Every console line needs a development build and every call on the
    performance timeline needs a browser that has one: a production build
    logs nothing, and a native host never touches the timeline. *)
Theorem events_are_gated_by_the_host
    (h : Host) (cs : list Call) (t : ImageLoadingPerformance) :
  (dev h = false →
   Forall (λ e, isConsoleLog e = false) (snd (run h cs t)))
  ∧ (web_performance h = None →
     Forall (λ e, isTimelineEvent e = false) (snd (run h cs t)))
  ∧ (platform_web h = false →
     Forall (λ e, isTimelineEvent e = false ∧ isThrowEvent e = false)
       (snd (run h cs t))).
Proof.
  pose proof (run_events_Forall (gated h) h (step_events_gated h) cs t) as Hg.
  split; [|split].
  - intros Hdev. eapply Forall_impl; [exact Hg|].
    intros e (Hlog & _ & _). destruct (isConsoleLog e); [|done].
    rewrite Hlog in Hdev; done.
  - intros Hperf. eapply Forall_impl; [exact Hg|].
    intros e (_ & Htl & _). destruct (isTimelineEvent e); [|done].
    destruct Htl as [p Hp]; [done|]. congruence.
  - intros Hweb. eapply Forall_impl; [exact Hg|].
    intros e (_ & Htl & Hthrow). split.
    + destruct (isTimelineEvent e); [|done].
      destruct Htl as [p Hp]; [done|].
      unfold web_performance in Hp. by rewrite Hweb in Hp.
    + destruct (isThrowEvent e); [|done].
      destruct Hthrow as (_ & Hw & _); [done|]. congruence.
Qed.

Lemma events_are_gated_by_the_host_witness :
  Forall (λ e, isConsoleLog e = false)
    (snd (run native_release
            [StartTracking 0 1; OnImageLoaded 9; ClearCache] imagePerformance))
  ∧ Forall (λ e, isTimelineEvent e = false ∧ isThrowEvent e = false)
      (snd (run native_release
              [StartTracking 0 1; OnImageLoaded 9; ClearCache] imagePerformance)).
Proof.
  destruct (events_are_gated_by_the_host native_release
              [StartTracking 0 1; OnImageLoaded 9; ClearCache] imagePerformance)
    as (Hlog & _ & Hnative).
  split; [apply Hlog | apply Hnative]; reflexivity.
Defined.

(** A call throws only in a development build on a web platform whose
    [window.performance] is missing, where the memory probe reads a field of
    [undefined]; and there every session that completes ends in that
    exception. *)
Theorem tracker_throws_only_without_window_performance (h : Host) :
  (∀ (cs : list Call) (t : ImageLoadingPerformance),
     Exists (λ e, isThrowEvent e = true) (snd (run h cs t)) →
     dev h = true ∧ platform_web h = true ∧ window_performance h = None)
  ∧ (dev h = true ∧ platform_web h = true ∧ window_performance h = None →
     ∀ (t0 : ImageLoadingPerformance) (now n : Z) (nows : list Z),
       (0 < n <= Z.of_nat (length nows))%Z →
       last (snd (run h (StartTracking now n :: map OnImageLoaded nows) t0))
       = Some ThrowTypeError).
Proof.
  split.
  - intros cs t Hex.
    pose proof (run_events_Forall (gated h) h (step_events_gated h) cs t) as Hg.
    apply Exists_exists in Hex as (e & Hin & He).
    eapply Forall_forall in Hg as (_ & _ & Hthrow); [|exact Hin]. auto.
  - intros (Hdev & Hweb & Hperf) t0 now n nows Hn.
    destruct (split_at_nth_load n nows) as (firsts & x & rest & -> & Hf & _);
      [done|].
    destruct (run_session_hit h t0 now n firsts x rest Hf) as (_ & _ & -> & _).
    unfold startTracking, completionEvents, web_performance; cbn.
    rewrite Hdev, Hweb, Hperf. reflexivity.
Qed.

Lemma tracker_throws_only_without_window_performance_witness :
  last (snd (run {| platform_web := true; window_performance := None;
                    dev := true |}
               (StartTracking 0 1 :: map OnImageLoaded [4]%Z) imagePerformance))
  = Some ThrowTypeError.
Proof.
  apply (proj2 (tracker_throws_only_without_window_performance
                  {| platform_web := true; window_performance := None;
                     dev := true |})).
  - repeat split.
  - cbn. lia.
Defined.

(** ** The start mark *)

Lemma timeline_app (started : bool) (es1 es2 : list Event) :
  timeline started (es1 ++ es2)
  = match timeline started es1 with
    | Some b => timeline b es2
    | None => None
    end.
Proof.
  revert started. induction es1 as [|e es1 IH]; intros started; [done|].
  cbn [app timeline].
  destruct e; try apply IH.
  destruct (String.eqb name "image-loading-start"); [apply IH|].
  destruct (String.eqb name "image-loading-end"); [|apply IH].
  destruct started; [apply IH | done].
Qed.

Lemma timeline_startTracking (h : Host) (now n : Z)
    (t : ImageLoadingPerformance) (started : bool) :
  timeline started (snd (startTracking h now n t))
  = Some (match web_performance h with Some _ => true | None => started end).
Proof.
  unfold startTracking; cbn [snd].
  destruct (web_performance h) as [[[|] mt mem]|]; reflexivity.
Qed.

Lemma timeline_completionEvents (h : Host) (m : PerformanceMetrics)
    (started : bool) :
  started = true ∨ web_performance h = None →
  timeline started (completionEvents h m) = Some started.
Proof.
  intros Hok. unfold completionEvents.
  destruct (web_performance h) as [[ct mt mem]|] eqn:Hperf.
  - destruct Hok as [->|?]; [|done].
    destruct mt; cbn; destruct (dev h); cbn; destruct (platform_web h); cbn;
      destruct (window_performance h) as [[? ? [?|]]|]; reflexivity.
  - cbn. destruct (dev h); cbn; destruct (platform_web h); cbn;
      destruct (window_performance h) as [[? ? [?|]]|]; reflexivity.
Qed.

(** As long as the start mark is set, or there is no timeline, or the
    loaded count is at or past the total, every end mark of a run finds the
    start mark set. *)
Lemma run_timeline (h : Host) (cs : list Call) (t : ImageLoadingPerformance)
    (started : bool) :
  started = true ∨ web_performance h = None
    ∨ (totalImages (metrics t) <= loadedImages (metrics t))%Z →
  is_Some (timeline started (snd (run h cs t))).
Proof.
  revert t started. induction cs as [|c cs IH]; intros t started Hinv;
    [by eexists|].
  cbn [run].
  assert (∃ b, timeline started (snd (step h c t)) = Some b
               ∧ (b = true ∨ web_performance h = None
                  ∨ (totalImages (metrics (fst (step h c t)))
                     <= loadedImages (metrics (fst (step h c t))))%Z))
    as (b & Hb & Hinv').
  { destruct c as [now n|now|src|]; cbn [step].
    - eexists. split; [apply timeline_startTracking|].
      destruct (web_performance h); auto.
    - destruct (Z.eq_dec (loadedImages (metrics t) + 1)%Z (totalImages (metrics t)))
        as [Heq|Hne].
      + rewrite (onImageLoaded_completion h now t Heq). cbn [fst snd].
        exists started. split.
        * apply timeline_completionEvents.
          destruct Hinv as [?|[?|?]]; [auto..|lia].
        * cbn. right. right. lia.
      + rewrite (onImageLoaded_no_completion h now t Hne). cbn [fst snd].
        exists started. split; [done|].
        destruct Hinv as [?|[?|?]]; [auto..|]. cbn. right. right. lia.
    - exists started. split; [done|]. done.
    - exists started. unfold clearCache; cbn.
      split; [by destruct (dev h)|]. done. }
  destruct (step h c t) as [t1 e1]. cbn [fst snd] in *.
  specialize (IH t1 b Hinv').
  destruct (run h cs t1) as [t2 e2]. cbn [snd] in *.
  by rewrite timeline_app, Hb.
Qed.

(** On the singleton, whatever is called and in whatever order, every
    ["image-loading-end"] mark is put while the ["image-loading-start"] mark
    is set: the duration is never measured from a mark that was not put. *)
Theorem end_mark_always_follows_start_mark (h : Host) (cs : list Call) :
  is_Some (timeline false (snd (run h cs imagePerformance))).
Proof. apply run_timeline. right. right. cbn. lia. Qed.

(** ** Tracking calls and cache calls do not meet *)

Lemma step_metrics_only (h : Host) (c : Call)
    (t t' : ImageLoadingPerformance) :
  metrics t = metrics t' →
  metrics (fst (step h c t))
  = (if isTrackingCall c then metrics (fst (step h c t')) else metrics t')
  ∧ snd (step h c t)
    = (if isTrackingCall c then snd (step h c t') else snd (step h c t)).
Proof.
  intros Hm. destruct c as [now n|now|src|]; cbn.
  - unfold startTracking. by rewrite Hm.
  - unfold onImageLoaded. rewrite Hm. by destruct (reachedTotal _).
  - done.
  - done.
Qed.

Lemma step_cache_only (h : Host) (c : Call)
    (t t' : ImageLoadingPerformance) :
  imageCache t = imageCache t' →
  imageCache (fst (step h c t))
  = (if isCacheCall c then imageCache (fst (step h c t')) else imageCache t').
Proof.
  intros Hc. destruct c as [now n|now|src|]; cbn.
  - done.
  - unfold onImageLoaded. by destruct (reachedTotal _).
  - unfold cacheImage; cbn. by rewrite Hc.
  - done.
Qed.

Lemma run_metrics_only (h : Host) (cs : list Call)
    (t t' : ImageLoadingPerformance) :
  metrics t = metrics t' →
  metrics (fst (run h cs t))
  = metrics (fst (run h (List.filter isTrackingCall cs) t')).
Proof.
  revert t t'. induction cs as [|c cs IH]; intros t t' Hm; cbn; [done|].
  destruct (step_metrics_only h c t t' Hm) as [Hstep _].
  destruct (isTrackingCall c); cbn [run].
  - destruct (step h c t) as [t1 e1], (step h c t') as [t1' e1'].
    cbn [fst] in Hstep. specialize (IH t1 t1' Hstep).
    by destruct (run h cs t1), (run h (List.filter isTrackingCall cs) t1').
  - destruct (step h c t) as [t1 e1]. cbn [fst] in Hstep.
    specialize (IH t1 t' Hstep). by destruct (run h cs t1).
Qed.

Lemma run_cache_only (h : Host) (cs : list Call)
    (t t' : ImageLoadingPerformance) :
  imageCache t = imageCache t' →
  imageCache (fst (run h cs t))
  = imageCache (fst (run h (List.filter isCacheCall cs) t')).
Proof.
  revert t t'. induction cs as [|c cs IH]; intros t t' Hc; cbn; [done|].
  pose proof (step_cache_only h c t t' Hc) as Hstep.
  destruct (isCacheCall c); cbn [run].
  - destruct (step h c t) as [t1 e1], (step h c t') as [t1' e1'].
    cbn [fst] in Hstep. specialize (IH t1 t1' Hstep).
    by destruct (run h cs t1), (run h (List.filter isCacheCall cs) t1').
  - destruct (step h c t) as [t1 e1]. cbn [fst] in Hstep.
    specialize (IH t1 t' Hstep). by destruct (run h cs t1).
Qed.

(** The counters and the cache do not influence each other: after any run,
    the metrics and the progress are those of the tracking calls alone, and
    what is cached is what the cache calls alone would leave. *)
Theorem tracking_and_cache_are_independent
    (h : Host) (cs : list Call) (t : ImageLoadingPerformance) :
  getMetrics (fst (run h cs t))
  = getMetrics (fst (run h (List.filter isTrackingCall cs) t))
  ∧ getProgress (fst (run h cs t))
    = getProgress (fst (run h (List.filter isTrackingCall cs) t))
  ∧ (∀ src : ImageSource,
       isImageCached src (fst (run h cs t))
       = isImageCached src (fst (run h (List.filter isCacheCall cs) t))).
Proof.
  pose proof (run_metrics_only h cs t t eq_refl) as Hm.
  pose proof (run_cache_only h cs t t eq_refl) as Hc.
  split; [done|]. split.
  - unfold getProgress. by rewrite Hm.
  - intros src. unfold isImageCached. by rewrite Hc.
Qed.

End HostFacts.

(** * More on the cache *)

Module CacheMoreFacts.

Import Tracker Scenarios Observations TrackerFacts CacheFacts.

(** ** Insert, look up, clear *)

(** A source is reported as cached right after it is cached, in every state
    of the set, also at capacity; after [clearCache] no source is, and the
    metrics are what they were. *)
Theorem cached_until_cleared
    (h : Host) (src : ImageSource) (t : ImageLoadingPerformance) :
  isImageCached src (cacheImage src t) = true
  ∧ (∀ other : ImageSource,
       isImageCached other (fst (clearCache h (cacheImage src t))) = false)
  ∧ getMetrics (fst (clearCache h (cacheImage src t))) = getMetrics t.
Proof.
  split; [apply set_has_set_add|]. split; [|done].
  intros other. unfold isImageCached, clearCache, set_has; cbn.
  apply bool_decide_eq_false_2, not_elem_of_nil.
Qed.

(** ** The limit, on the singleton *)

(** As long as no source with an empty key is cached, which among the
    sources are the plain empty string and the arrays that print as nothing,
    the set built by any sequence of calls on the singleton holds at most 50
    identifiers, none of them twice. *)
Theorem cache_within_limit_without_empty_key (h : Host) (cs : list Call) :
  (∀ src, CacheImage src ∈ cs → imageKey src ≠ "") →
  length (imageCache (fst (run h cs imagePerformance))) ≤ maxCacheSize
  ∧ NoDup (imageCache (fst (run h cs imagePerformance))).
Proof.
  intros Hsrcs.
  destruct (run_cache_limit h cs imagePerformance Hsrcs) as (Hnd & Hlen & _).
  - split; [apply NoDup_nil_2|]. split; [cbn; lia | done].
  - done.
Qed.

Lemma cache_within_limit_without_empty_key_witness :
  length (imageCache
            (fst (run native_release (map CacheImage (numbered 1 60))
                    imagePerformance))) ≤ maxCacheSize.
Proof.
  apply (cache_within_limit_without_empty_key native_release
           (map CacheImage (numbered 1 60))).
  intros src Hin.
  apply list_elem_of_In, in_map_iff in Hin as (x & Hx & Hin).
  injection Hx as ->. unfold numbered in Hin.
  apply in_map_iff in Hin as (i & <- & _). apply imageKey_number_nonempty.
Defined.

(** ** First in, first out *)

Lemma cached_snoc (srcs : list ImageSource) (src : ImageSource) :
  cached (srcs ++ [src]) = cacheImage src (cached srcs).
Proof.
  unfold cached. rewrite map_app, run_app. cbn.
  by destruct (run native_release (map CacheImage srcs) imagePerformance).
Qed.

Lemma cached_NoDup (srcs : list ImageSource) : NoDup (imageCache (cached srcs)).
Proof. apply run_NoDup, NoDup_nil_2. Qed.

(** Sources with distinct keys, none of the keys empty, cached one after
    the other on the fresh singleton, leave the keys of the last 50 of them
    in the set, in the order they were cached. *)
Theorem cache_holds_the_last_fifty (srcs : list ImageSource) :
  NoDup (map imageKey srcs) →
  Forall (λ src, imageKey src ≠ "") srcs →
  imageCache (cached srcs)
  = drop (length srcs - maxCacheSize) (map imageKey srcs).
Proof.
  induction srcs as [|src srcs IH] using rev_ind; intros Hnd Hne; [done|].
  rewrite map_app in Hnd. cbn [map] in Hnd.
  apply NoDup_app in Hnd as (Hnd & Hfresh & _).
  apply Forall_app in Hne as [Hne Hsrc].
  specialize (IH Hnd Hne).
  assert (imageKey src ∉ map imageKey srcs) as Hk.
  { intros Hin. apply (Hfresh _ Hin). by left. }
  rewrite cached_snoc, map_app, length_app. cbn [map length].
  pose proof (length_map imageKey srcs) as Hlen.
  destruct (decide (length srcs < maxCacheSize)) as [Hlt|Hge].
  - replace (length srcs - maxCacheSize) with 0 in IH by lia.
    replace (length srcs + 1 - maxCacheSize) with 0 by lia.
    rewrite drop_0 in *. unfold cacheImage; cbn [imageCache]. rewrite IH.
    rewrite evictIfFull_below by lia. by apply set_add_fresh.
  - destruct (lookup_lt_is_Some_2 (map imageKey srcs)
                (length srcs - maxCacheSize)) as [x Hx];
      [unfold maxCacheSize in *; lia|].
    assert (x ≠ "") as Hxne.
    { apply list_elem_of_lookup_2, list_elem_of_In, in_map_iff in Hx
        as (y & <- & Hy).
      eapply Forall_forall in Hne; [done|].
      by apply list_elem_of_In. }
    destruct (cacheImage_fresh_at_capacity src (cached srcs) x) as [-> _].
    + apply cached_NoDup.
    + rewrite IH, length_drop. unfold maxCacheSize in *. lia.
    + rewrite IH. unfold set_first. by rewrite (drop_S _ _ _ Hx).
    + done.
    + rewrite IH. intros Hin. apply Hk. by eapply subseteq_drop.
    + rewrite IH, (drop_S _ _ _ Hx). cbn [tail]. unfold maxCacheSize in *.
      rewrite drop_app_le by lia. f_equal. f_equal. lia.
Qed.

Lemma cache_holds_the_last_fifty_witness :
  imageCache (cached (numbered 1 52))
  = drop (length (numbered 1 52) - maxCacheSize)
      (map imageKey (numbered 1 52)).
Proof.
  apply (cache_holds_the_last_fifty (numbered 1 52)).
  - apply (bool_decide_unpack _). vm_compute. exact I.
  - apply Forall_forall. intros src Hin.
    apply list_elem_of_In in Hin. unfold numbered in Hin.
    apply in_map_iff in Hin as (i & <- & _). apply imageKey_number_nonempty.
Defined.

(** ** What one call can lose *)

(** On a set without duplicates, as every reachable one is, [cacheImage]
    adds nothing but the key of its source, which is present afterwards; the
    only identifier it can remove is the first entry of the set, every
    other one stays; and below capacity it removes none. *)
Theorem cacheImage_loses_at_most_one
    (src : ImageSource) (t : ImageLoadingPerformance) :
  NoDup (imageCache t) →
  imageKey src ∈ imageCache (cacheImage src t)
  ∧ (∀ x, x ∈ imageCache (cacheImage src t) →
          x = imageKey src ∨ x ∈ imageCache t)
  ∧ (∀ x, x ∈ imageCache t →
          x ∈ imageCache (cacheImage src t)
          ∨ (set_first (imageCache t) = Some x
             ∧ maxCacheSize ≤ length (imageCache t)))
  ∧ length (imageCache t) ≤ S (length (imageCache (cacheImage src t)))
  ∧ (length (imageCache t) < maxCacheSize →
     ∀ x, x ∈ imageCache t → x ∈ imageCache (cacheImage src t)).
Proof.
  intros Hnd. unfold cacheImage; cbn [imageCache].
  split; [apply elem_of_set_add; by left|].
  assert (∀ k c, length c ≤ length (set_add k c)) as Hgrow.
  { intros k c. unfold set_add. case_bool_decide; [done|].
    rewrite length_app. lia. }
  destruct (evictIfFull_cases (imageCache t) Hnd)
    as [Hev|(Hfull & x & Hfirst & _ & Hev)]; rewrite Hev.
  - split; [intros x; apply elem_of_set_add|]. split; [|split].
    + intros x Hx. left. apply elem_of_set_add. by right.
    + specialize (Hgrow (imageKey src) (imageCache t)). lia.
    + intros _ x Hx. apply elem_of_set_add. by right.
  - destruct (imageCache t) as [|y c]; [done|]. cbn [tail length] in *.
    split; [|split; [|split]].
    + intros z [->|Hz]%elem_of_set_add; [by left|]. right. by right.
    + intros z [->|Hz]%elem_of_cons.
      * by right.
      * left. apply elem_of_set_add. by right.
    + specialize (Hgrow (imageKey src) c). lia.
    + intros Hlt. lia.
Qed.

Lemma cacheImage_loses_at_most_one_witness :
  let t := cached (numbered 1 50) in
  "2" ∈ imageCache (cacheImage (SrcNumber 60) t)
  ∨ (set_first (imageCache t) = Some "2"
     ∧ maxCacheSize ≤ length (imageCache t)).
Proof.
  intros t.
  apply (proj1 (proj2 (proj2
           (cacheImage_loses_at_most_one (SrcNumber 60) t (cached_NoDup _))))
           "2").
  apply (bool_decide_unpack _). vm_compute. exact I.
Defined.

(** Caching a source twice in a row is caching it once, provided the set is
    below capacity after the first call. *)
Theorem cacheImage_twice_below_capacity
    (src : ImageSource) (t : ImageLoadingPerformance) :
  length (imageCache (cacheImage src t)) < maxCacheSize →
  cacheImage src (cacheImage src t) = cacheImage src t.
Proof.
  intros Hlt. unfold cacheImage at 1. unfold cacheImage at 3.
  f_equal. rewrite evictIfFull_below by done.
  apply set_add_present. unfold cacheImage; cbn [imageCache].
  apply elem_of_set_add. by left.
Qed.

Lemma cacheImage_twice_below_capacity_witness :
  cacheImage (SrcObject (Some "a.png"))
    (cacheImage (SrcObject (Some "a.png")) imagePerformance)
  = cacheImage (SrcObject (Some "a.png")) imagePerformance.
Proof.
  apply (cacheImage_twice_below_capacity (SrcObject (Some "a.png"))
           imagePerformance).
  vm_compute. lia.
Defined.

End CacheMoreFacts.

(** * Cache keys *)

Module KeyFacts.

Import Tracker Scenarios TrackerFacts CacheFacts.

(** Different asset ids have different keys, and so have different
    non-empty uris: neither kind can be taken for another of its kind. *)
Theorem imageKey_separates_ids_and_uris :
  (∀ n m : Z, n ≠ m → imageKey (SrcNumber n) ≠ imageKey (SrcNumber m))
  ∧ (∀ u v : string,
       u ≠ "" → v ≠ "" → u ≠ v →
       imageKey (SrcObject (Some u)) ≠ imageKey (SrcObject (Some v))).
Proof.
  split.
  - intros n m Hne Heq. cbn in Heq. by apply (inj pretty) in Heq.
  - intros u v Hu Hv Hne. by rewrite !imageKey_uri.
Qed.

Lemma imageKey_separates_ids_and_uris_witness :
  imageKey (SrcNumber 7) ≠ imageKey (SrcNumber 17)
  ∧ imageKey (SrcObject (Some "a.png")) ≠ imageKey (SrcObject (Some "b.png")).
Proof.
  split.
  - apply (proj1 imageKey_separates_ids_and_uris 7%Z 17%Z). lia.
  - apply (proj2 imageKey_separates_ids_and_uris "a.png" "b.png");
      discriminate.
Defined.

(** How an array prints, one element at a time. *)
Lemma js_String_array_cons (x : ImageSource) (l : list ImageSource) :
  js_String (SrcArray (x :: l))
  = match x with
    | SrcNull | SrcUndefined => ""
    | _ => js_String x
    end
    +:+ match l with
        | [] => ""
        | _ :: _ => "," +:+ js_String (SrcArray l)
        end.
Proof. by destruct l. Qed.

(** Arrays of plain objects print alike when they are equally long. *)
Lemma js_String_array_of_objects (us vs : list (option string)) :
  length us = length vs →
  js_String (SrcArray (map SrcObject us))
  = js_String (SrcArray (map SrcObject vs)).
Proof.
  revert vs. induction us as [|u us IH]; intros [|v vs] Hlen; try done.
  cbn [map]. rewrite !js_String_array_cons.
  injection Hlen as Hlen. specialize (IH vs Hlen).
  destruct us, vs; try done. cbn [map] in *. by rewrite IH.
Qed.

(** Keys do collide across kinds.  All plain objects without a usable
    [uri], the field missing or empty, have the key ["[object Object]"], so
    once one of them is cached every one of them is reported as cached.
    Two arrays of plain objects of the same length have the same key,
    whatever the [uri]s in them.  The empty array has the empty key of the
    empty string.  An asset id that is a safe integer shares its key with
    its decimal string. *)
Theorem keys_collide_across_kinds (t : ImageLoadingPerformance) :
  (∀ a b : option string,
     a = None ∨ a = Some "" → b = None ∨ b = Some "" →
     imageKey (SrcObject a) = "[object Object]"
     ∧ isImageCached (SrcObject b) (cacheImage (SrcObject a) t) = true)
  ∧ (∀ us vs : list (option string),
       length us = length vs →
       isImageCached (SrcArray (map SrcObject vs))
         (cacheImage (SrcArray (map SrcObject us)) t) = true)
  ∧ isImageCached (SrcString "") (cacheImage (SrcArray []) t) = true
  ∧ (∀ n : Z,
       (Z.abs n < 2 ^ 53)%Z →
       isImageCached (SrcString (pretty n)) (cacheImage (SrcNumber n) t) = true
       ∧ isImageCached (SrcNumber n) (cacheImage (SrcString (pretty n)) t)
         = true).
Proof.
  split; [|split; [|split]].
  - intros a b Ha Hb.
    assert (imageKey (SrcObject b) = imageKey (SrcObject a)) as Hk
      by (destruct Ha as [-> | ->], Hb as [-> | ->]; reflexivity).
    split; [by destruct Ha as [-> | ->]|].
    unfold isImageCached. rewrite Hk. apply set_has_set_add.
  - intros us vs Hlen. unfold isImageCached.
    assert (imageKey (SrcArray (map SrcObject vs))
            = imageKey (SrcArray (map SrcObject us))) as ->
      by (symmetry; by apply js_String_array_of_objects).
    apply set_has_set_add.
  - apply set_has_set_add.
  - intros n _. split; apply set_has_set_add.
Qed.

Lemma keys_collide_across_kinds_witness :
  isImageCached (SrcObject (Some ""))
    (cacheImage (SrcObject None) imagePerformance) = true
  ∧ isImageCached (SrcArray (map SrcObject [Some "b.png"; None]))
      (cacheImage (SrcArray (map SrcObject [Some "a.png"; Some "c.png"]))
         imagePerformance) = true
  ∧ isImageCached (SrcString (pretty 7%Z))
      (cacheImage (SrcNumber 7) imagePerformance) = true.
Proof.
  split; [|split].
  - apply (proj1 (keys_collide_across_kinds imagePerformance) None (Some "")).
    + left. reflexivity.
    + right. reflexivity.
  - apply (proj1 (proj2 (keys_collide_across_kinds imagePerformance))
             [Some "a.png"; Some "c.png"] [Some "b.png"; None]).
    reflexivity.
  - apply (proj2 (proj2 (proj2 (keys_collide_across_kinds imagePerformance)))
             7%Z).
    cbn. lia.
Defined.

End KeyFacts.

(** * More on the lazy image component *)

Module LazyImageMoreFacts.

Import Tracker LazyImage LazyImageMount Home Scenarios Observations.
Import TrackerFacts CacheFacts HostFacts.

(** ** What is on screen *)

(** In every state the component renders something.  It renders the image
    exactly when there is no error and the source is cached or loading has
    been released; the error placeholder exactly when there is an error; the
    loading placeholder exactly when the image is not being shown for a
    cached source and either loading has not been released or the image is
    still loading.  The image and the error placeholder never appear
    together. *)
Theorem render_by_state (p : LazyImageProps) (s : State) (isCached : bool) :
  render p s isCached ≠ []
  ∧ existsb isImage (render p s isCached)
    = negb (hasError s) && (isCached || shouldLoad s)
  ∧ existsb isErrorPlaceholder (render p s isCached) = hasError s
  ∧ existsb isPlaceholder (render p s isCached)
    = negb (isCached && negb (hasError s))
      && (negb (shouldLoad s) || (negb (hasError s) && negb (isLoaded s)))
  ∧ existsb isImage (render p s isCached)
    && existsb isErrorPlaceholder (render p s isCached) = false.
Proof.
  unfold render.
  destruct s as [loaded inview err should]; cbn.
  destruct isCached, err, should, loaded; cbn; repeat split; done.
Qed.

(** Once [handleImageLoad] has run on a component without an error, the
    component renders the opaque image and nothing else, whatever its
    priority, placeholder and earlier state. *)
Theorem loaded_image_is_all_that_is_rendered
    (h : Host) (now : Z) (p : LazyImageProps) (s : State)
    (t : ImageLoadingPerformance) :
  hasError s = false →
  let '(s', t', _) := handleImageLoad h now p s t in
  render p s' (isImageCached (source p) t') = [ImageNode true].
Proof.
  intros Herr.
  pose proof (LazyImageFacts.handleImageLoad_counts h now p s t) as Hload.
  unfold handleImageLoad in *.
  destruct (onImageLoaded h now (cacheImage (source p) t)) as [t2 es].
  destruct Hload as (_ & _ & ->). unfold render; cbn. by rewrite Herr.
Qed.

Lemma loaded_image_is_all_that_is_rendered_witness :
  let p := {| source := SrcNumber 3; placeholder := false; onLoad := true;
              onError := false; threshold := 50; priority := low |} in
  let '(s', t', _) :=
    handleImageLoad native_release 7 p (initialState p) imagePerformance in
  render p s' (isImageCached (source p) t') = [ImageNode true].
Proof.
  intros p.
  apply (loaded_image_is_all_that_is_rendered native_release 7%Z p
           (initialState p) imagePerformance).
  reflexivity.
Defined.

(** ** Deferral *)

(** With a high priority or a cached source the effect releases loading at
    once and sets up neither an observer nor a timer, and the render that
    follows contains the image. *)
Theorem high_priority_or_cached_loads_at_once
    (h : Host) (p : LazyImageProps) (isCached : bool)
    (containerRef : option ContainerRef) (random : Q) :
  isHigh (priority p) || isCached = true →
  mountEffect h p isCached containerRef random = Immediate
  ∧ shouldLoad (afterMount Immediate (initialState p)) = true
  ∧ isInView (afterMount Immediate (initialState p)) = true
  ∧ existsb isImage
      (render p (afterMount Immediate (initialState p)) isCached) = true.
Proof.
  intros Hnow. unfold mountEffect. rewrite Hnow. repeat split.
  unfold render; cbn. by destruct isCached.
Qed.

Lemma high_priority_or_cached_loads_at_once_witness :
  let p := {| source := SrcObject (Some "a.png"); placeholder := false;
              onLoad := false; onError := false; threshold := 50;
              priority := low |} in
  mountEffect browser_dev p true None 0 = Immediate.
Proof.
  intros p.
  apply (high_priority_or_cached_loads_at_once browser_dev p true None 0%Q).
  reflexivity.
Defined.

(** A low-priority component whose source is not cached renders the
    placeholder alone, so no image is requested, until the observer reports
    an intersecting entry or the timer fires; from then on it renders the
    placeholder over the transparent image.  Entries that do not intersect
    change nothing and stop no observation. *)
Theorem low_priority_waits_behind_placeholder (p : LazyImageProps) :
  priority p = low →
  render p (initialState p) false = [PlaceholderNode (placeholder p)]
  ∧ render p (onTimeout (initialState p)) false
    = [PlaceholderNode (placeholder p); ImageNode false]
  ∧ (∀ entries : list bool,
       fst (onIntersection entries (initialState p))
       = (if existsb id entries then onTimeout (initialState p)
          else initialState p)
       ∧ (Forall (λ b, b = false) entries →
          onIntersection entries (initialState p) = (initialState p, 0))).
Proof.
  intros Hlow. unfold render, initialState, onTimeout, reveal; cbn.
  rewrite Hlow; cbn. split; [done|]. split; [done|].
  intros entries. split; [done|]. intros Hall.
  unfold onIntersection.
  assert (existsb id entries = false ∧ List.filter id entries = [])
    as [-> ->]; [|done].
  induction Hall as [|b bs -> _ [IH1 IH2]]; [done|]. cbn. by rewrite IH1, IH2.
Qed.

Lemma low_priority_waits_behind_placeholder_witness :
  let p := {| source := SrcNumber 3; placeholder := true; onLoad := false;
              onError := false; threshold := 50; priority := low |} in
  render p (initialState p) false = [PlaceholderNode true].
Proof.
  intros p. apply (low_priority_waits_behind_placeholder p). reflexivity.
Defined.

(** How a low-priority, uncached component defers.  On a web platform with
    a container it creates an observer whose margin is the threshold in
    pixels and whose visible fraction is one tenth, and it observes unless
    the tagged element was not found.  Everywhere else, on native hosts and
    on the web without a container, it starts a timer, and for a random
    number from 0 up to but excluding 1 the delay is at least 500 and at
    most 1500 milliseconds: the zero delay foreseen for the high priority is
    never used. *)
Theorem low_priority_observes_or_waits
    (h : Host) (p : LazyImageProps) (containerRef : option ContainerRef)
    (random : Q) :
  priority p = low →
  (∀ c, platform_web h = true → containerRef = Some c →
        mountEffect h p false containerRef random
        = Observer (pretty (threshold p) +:+ "px") (1 # 10) (elementFound c))
  ∧ (platform_web h = false ∨ containerRef = None →
     ∃ delay, mountEffect h p false containerRef random = Timer delay)
  ∧ (∀ delay, mountEffect h p false containerRef random = Timer delay →
              (0 <= random)%Q → (random < 1)%Q →
              (500 <= delay)%Q ∧ (delay <= 1500)%Q ∧ ¬ (delay == 0)%Q).
Proof.
  intros Hlow. unfold mountEffect. rewrite Hlow; cbn. split; [|split].
  - intros c -> ->. reflexivity.
  - intros [->| ->]; [by eexists|]. destruct (platform_web h); by eexists.
  - intros delay Hd H0 H1.
    assert (delay = (random * 1000 + 500)%Q) as ->.
    { destruct (platform_web h), containerRef; by inversion Hd. }
    destruct random as [a b]. unfold Qle, Qlt, Qeq in *. cbn in *.
    rewrite ?Pos2Z.inj_mul. lia.
Qed.

Lemma low_priority_observes_or_waits_witness :
  let p := {| source := SrcNumber 3; placeholder := false; onLoad := false;
              onError := false; threshold := 50; priority := low |} in
  mountEffect browser_dev p false
    (Some {| nativeTag := false; queryFound := false |}) (1 # 2)
  = Observer "50px" (1 # 10) true
  ∧ (∃ delay, mountEffect native_release p false None (1 # 2) = Timer delay)
  ∧ (500 <= (1 # 2) * 1000 + 500)%Q ∧ ((1 # 2) * 1000 + 500 <= 1500)%Q
  ∧ ¬ ((1 # 2) * 1000 + 500 == 0)%Q.
Proof.
  intros p. split; [|split].
  - apply (proj1 (low_priority_observes_or_waits browser_dev p
                    (Some {| nativeTag := false; queryFound := false |})
                    (1 # 2) eq_refl)
             {| nativeTag := false; queryFound := false |});
      reflexivity.
  - apply (proj1 (proj2 (low_priority_observes_or_waits native_release p
                           None (1 # 2) eq_refl))).
    left. reflexivity.
  - apply (proj2 (proj2 (low_priority_observes_or_waits native_release p
                           None (1 # 2) eq_refl))
             ((1 # 2) * 1000 + 500)%Q).
    + reflexivity.
    + unfold Qle; cbn; lia.
    + unfold Qlt; cbn; lia.
Defined.

(** ** The load handler *)

Lemma hostEvents_app (es1 es2 : list Effect) :
  hostEvents (es1 ++ es2) = hostEvents es1 ++ hostEvents es2.
Proof.
  induction es1 as [|e es1 IH]; [done|]. destruct e; cbn; by rewrite ?IH.
Qed.

Lemma hostEvents_map (es : list Event) : hostEvents (map HostEvent es) = es.
Proof. induction es as [|e es IH]; [done|]. cbn. by rewrite IH. Qed.

Lemma invokeOnLoad_map (es : list Event) :
  List.filter isInvokeOnLoad (map HostEvent es) = [].
Proof. induction es as [|e es IH]; [done|]. cbn. by rewrite IH. Qed.

Lemma threw_false (h : Host) (now : Z) (t : ImageLoadingPerformance) :
  ¬ (dev h = true ∧ platform_web h = true ∧ window_performance h = None) →
  threw (snd (onImageLoaded h now t)) = false.
Proof.
  intros Hhost.
  pose proof (step_events_gated h (OnImageLoaded now) t) as Hg. cbn in Hg.
  unfold threw. induction Hg as [|e es (_ & _ & He) _ IH]; [done|].
  cbn. rewrite IH, orb_false_r.
  destruct e; try done. by destruct Hhost; apply He.
Qed.

(** [handleImageLoad] leaves the tracker as [onImageLoaded] after
    [cacheImage] leaves it and passes the events of the tracker on.  When
    the tracker call does not throw, it invokes the load callback exactly
    once when one was supplied and not at all otherwise, and schedules the
    release of the image reference, 100 milliseconds later, exactly on
    non-web platforms.  When the tracker call throws, neither happens.  It
    cannot throw unless the host is a development build on the web without
    [window.performance]. *)
Theorem handleImageLoad_reports_once
    (h : Host) (now : Z) (p : LazyImageProps) (s : State)
    (t : ImageLoadingPerformance) :
  let '(_, t', effects) := handleImageLoad h now p s t in
  let es := snd (onImageLoaded h now (cacheImage (source p) t)) in
  t' = fst (onImageLoaded h now (cacheImage (source p) t))
  ∧ hostEvents effects = es
  ∧ (threw es = false →
     length (List.filter isInvokeOnLoad effects) = (if onLoad p then 1 else 0)
     ∧ (ScheduleRelease 100 ∈ effects ↔ platform_web h = false))
  ∧ (threw es = true →
     List.filter isInvokeOnLoad effects = []
     ∧ ∀ ms, ScheduleRelease ms ∉ effects)
  ∧ (¬ (dev h = true ∧ platform_web h = true ∧ window_performance h = None) →
     threw es = false).
Proof.
  unfold handleImageLoad.
  pose proof (threw_false h now (cacheImage (source p) t)) as Hthrew.
  destruct (onImageLoaded h now (cacheImage (source p) t)) as [t2 es].
  cbn [fst snd] in *. split; [done|]. split; [|split; [|split; [|done]]].
  - rewrite hostEvents_app, hostEvents_map.
    destruct (threw es), (onLoad p), (platform_web h); cbn;
      by rewrite app_nil_r.
  - intros ->. split.
    + rewrite List.filter_app, invokeOnLoad_map.
      by destruct (onLoad p), (platform_web h).
    + rewrite elem_of_app. split.
      * intros [Hin|Hin].
        { apply list_elem_of_In, in_map_iff in Hin as (e & He & _). done. }
        destruct (platform_web h); [|done].
        destruct (onLoad p); cbn in Hin.
        -- apply elem_of_cons in Hin as [?|Hin]; [done|].
           by apply elem_of_nil in Hin.
        -- by apply elem_of_nil in Hin.
      * intros ->. right. destruct (onLoad p); cbn.
        -- right. left.
        -- left.
  - intros ->. rewrite app_nil_r. split; [apply invokeOnLoad_map|].
    intros ms Hin.
    apply list_elem_of_In, in_map_iff in Hin as (e & He & _). done.
Qed.

Lemma handleImageLoad_reports_once_witness :
  let p := {| source := SrcNumber 3; placeholder := false; onLoad := true;
              onError := false; threshold := 50; priority := low |} in
  let '(_, _, effects) :=
    handleImageLoad native_release 7 p (initialState p) imagePerformance in
  length (List.filter isInvokeOnLoad effects) = 1
  ∧ (ScheduleRelease 100 ∈ effects ↔ platform_web native_release = false).
Proof.
  intros p.
  pose proof (handleImageLoad_reports_once native_release 7%Z p
                (initialState p) imagePerformance) as H.
  cbv beta iota zeta delta [handleImageLoad] in H |- *.
  destruct (onImageLoaded native_release 7
              (cacheImage (source p) imagePerformance)) as [t2 es].
  destruct H as (_ & _ & Hquiet & _ & Hhost). apply Hquiet, Hhost.
  intros (Hdev & _). discriminate Hdev.
Defined.

(** ** How long a loaded source stays cached *)

(** An identifier with [S m] to spare, counting the entries in front of it
    and the room left in the set, has [m] to spare after one more
    [cacheImage]. *)
Lemma cacheImage_keeps_recent
    (k : string) (src : ImageSource) (t : ImageLoadingPerformance) (m : nat) :
  NoDup (imageCache t) →
  (∃ pre post, imageCache t = pre ++ k :: post
     ∧ S m ≤ length pre + (maxCacheSize - length (imageCache t))) →
  ∃ pre post, imageCache (cacheImage src t) = pre ++ k :: post
    ∧ m ≤ length pre
          + (maxCacheSize - length (imageCache (cacheImage src t))).
Proof.
  intros Hnd (pre & post & Hc & Hm). unfold cacheImage; cbn [imageCache].
  assert (∀ c pre' post', c = pre' ++ k :: post' →
            m ≤ length pre' + (maxCacheSize - S (length c)) →
            ∃ pre post, set_add (imageKey src) c = pre ++ k :: post
              ∧ m ≤ length pre
                    + (maxCacheSize - length (set_add (imageKey src) c)))
    as Hadd.
  { intros c pre' post' -> Hb. unfold set_add. case_bool_decide.
    - exists pre', post'. split; [done|]. lia.
    - exists pre', (post' ++ [imageKey src]).
      split; [by rewrite <- app_assoc|].
      rewrite !length_app in *. cbn [length] in *. lia. }
  destruct (evictIfFull_cases (imageCache t) Hnd)
    as [Hev|(Hfull & x & Hfirst & _ & Hev)]; rewrite Hev.
  - apply (Hadd _ pre post Hc). lia.
  - rewrite Hc in *. destruct pre as [|y pre].
    + cbn [length] in Hm. cbn [app length] in Hfull. unfold maxCacheSize in *.
      cbn [app length] in Hm. lia.
    + cbn [app tail]. apply (Hadd _ pre post eq_refl).
      cbn [app length] in *. lia.
Qed.

(** So it outlasts any calls that do not clear the cache and cache at
    most as many sources as it has to spare. *)
Lemma run_keeps_recent (h : Host) (k : string) (cs : list Call)
    (t : ImageLoadingPerformance) (m : nat) :
  NoDup (imageCache t) →
  Forall (λ c, c ≠ ClearCache) cs →
  length (List.filter isCacheCall cs) ≤ m →
  (∃ pre post, imageCache t = pre ++ k :: post
     ∧ m ≤ length pre + (maxCacheSize - length (imageCache t))) →
  k ∈ imageCache (fst (run h cs t)).
Proof.
  revert t m. induction cs as [|c cs IH]; intros t m Hnd Hcs Hcount Hk.
  - destruct Hk as (pre & post & Hc & _). cbn. rewrite Hc.
    apply elem_of_app. right. by left.
  - apply Forall_cons in Hcs as [Hc Hcs]. cbn [run].
    pose proof (step_NoDup h c t Hnd) as Hnd1.
    assert (∃ m', length (List.filter isCacheCall cs) ≤ m'
              ∧ ∃ pre post, imageCache (fst (step h c t)) = pre ++ k :: post
                 ∧ m' ≤ length pre
                        + (maxCacheSize - length (imageCache (fst (step h c t)))))
      as (m' & Hcount' & Hk').
    { destruct c as [now n|now|src|]; cbn [List.filter isCacheCall] in Hcount.
      - exists m. split; [done|]. by cbn.
      - exists m. split; [done|]. cbn [step].
        unfold onImageLoaded. by destruct (reachedTotal _).
      - cbn [length] in Hcount. destruct m as [|m]; [lia|].
        exists m. split; [lia|]. cbn [step fst].
        by apply cacheImage_keeps_recent.
      - done. }
    destruct (step h c t) as [t1 e1]. cbn [fst] in *.
    specialize (IH t1 m' Hnd1 Hcs Hcount' Hk').
    by destruct (run h cs t1).
Qed.

(** A source that has just loaded is reported as cached, and a component
    mounted then with the same source, whatever its priority and host, loads
    at once and renders the opaque image without a placeholder.  When the
    source was not cached before it loaded, this is still so after any
    further calls on the tracker that do not clear the cache and cache at
    most 49 sources: the loads of up to 49 other images. *)
Theorem loaded_source_skips_deferral
    (h h' : Host) (now : Z) (p q : LazyImageProps) (s : State)
    (t : ImageLoadingPerformance)
    (containerRef : option ContainerRef) (random : Q) :
  source q = source p →
  let '(_, t', _) := handleImageLoad h now p s t in
  (isImageCached (source q) t' = true
   ∧ mountEffect h' q (isImageCached (source q) t') containerRef random
     = Immediate
   ∧ render q (afterMount Immediate (initialState q))
       (isImageCached (source q) t')
     = [ImageNode true])
  ∧ (∀ (host : Host) (cs : list Call),
       NoDup (imageCache t) →
       isImageCached (source p) t = false →
       Forall (λ c, c ≠ ClearCache) cs →
       length (List.filter isCacheCall cs) ≤ 49 →
       let later := fst (run host cs t') in
       isImageCached (source q) later = true
       ∧ mountEffect h' q (isImageCached (source q) later) containerRef random
         = Immediate
       ∧ render q (afterMount Immediate (initialState q))
           (isImageCached (source q) later)
         = [ImageNode true]).
Proof.
  intros Hsrc.
  pose proof (LazyImageFacts.handleImageLoad_counts h now p s t) as Hload.
  unfold handleImageLoad in *.
  destruct (onImageLoaded h now (cacheImage (source p) t)) as [t2 es] eqn:Hon.
  destruct Hload as (_ & _ & Hc).
  assert (∀ t3, isImageCached (source q) t3 = true →
            mountEffect h' q (isImageCached (source q) t3) containerRef random
            = Immediate
            ∧ render q (afterMount Immediate (initialState q))
                (isImageCached (source q) t3)
              = [ImageNode true]) as Hmount.
  { intros t3 ->. unfold mountEffect. by rewrite orb_true_r. }
  assert (isImageCached (source q) t2 = true) as Hq by (by rewrite Hsrc).
  split; [split; [exact Hq | by apply Hmount]|].
  intros host cs Hnd Hfresh Hcs Hcount.
  set (later := fst (run host cs t2)).
  assert (isImageCached (source p) later = true) as Hlater.
  { apply bool_decide_eq_true. subst later.
    apply (run_keeps_recent host _ cs t2 49); [| done | done |].
    - assert (imageCache t2 = imageCache (cacheImage (source p) t)) as ->.
      { unfold onImageLoaded in Hon. destruct (reachedTotal _); by inversion Hon. }
      by apply NoDup_set_add, NoDup_evictIfFull.
    - assert (imageCache t2 = imageCache (cacheImage (source p) t)) as ->.
      { unfold onImageLoaded in Hon. destruct (reachedTotal _); by inversion Hon. }
      unfold cacheImage; cbn [imageCache].
      apply bool_decide_eq_false in Hfresh.
      assert (imageKey (source p) ∉ evictIfFull (imageCache t)) as Hk.
      { intros Hin. apply Hfresh.
        destruct (evictIfFull_cases (imageCache t) Hnd)
          as [Hev|(_ & x & _ & _ & Hev)]; rewrite Hev in Hin; [done|].
        destruct (imageCache t); [done|]. by right. }
      rewrite set_add_fresh by done.
      exists (evictIfFull (imageCache t)), []. split; [done|].
      rewrite length_app. cbn [length]. unfold maxCacheSize. lia. }
  rewrite <- Hsrc in Hlater. split; [done|]. by apply Hmount.
Qed.

Lemma loaded_source_skips_deferral_witness :
  let p := {| source := SrcObject (Some "a.png"); placeholder := false;
              onLoad := false; onError := false; threshold := 50;
              priority := high |} in
  let q := {| source := SrcObject (Some "a.png"); placeholder := true;
              onLoad := false; onError := false; threshold := 10;
              priority := low |} in
  let '(_, t', _) :=
    handleImageLoad browser_dev 7 p (initialState p) imagePerformance in
  let later :=
    fst (run browser_dev [CacheImage (SrcNumber 1); OnImageLoaded 9] t') in
  isImageCached (source q) later = true
  ∧ mountEffect native_release q (isImageCached (source q) later) None 0
    = Immediate
  ∧ render q (afterMount Immediate (initialState q))
      (isImageCached (source q) later)
    = [ImageNode true].
Proof.
  intros p q.
  pose proof (loaded_source_skips_deferral browser_dev native_release 7%Z p q
                (initialState p) imagePerformance None 0%Q eq_refl) as H.
  cbv beta iota zeta delta [handleImageLoad] in H |- *.
  destruct (onImageLoaded browser_dev 7
              (cacheImage (source p) imagePerformance)) as [t2 es].
  destruct H as [_ H].
  apply (H browser_dev [CacheImage (SrcNumber 1); OnImageLoaded 9]).
  - apply NoDup_nil_2.
  - reflexivity.
  - repeat constructor; discriminate.
  - cbn. lia.
Defined.

End LazyImageMoreFacts.

(** * The home screen *)

Module HomeFacts.

Import Tracker LazyImage Home Scenarios Observations.
Import TrackerFacts CacheFacts SessionFacts HostFacts.

(** ** The card width *)

Lemma js_lt_spec (a b : Q) : js_lt a b = true ↔ (a < b)%Q.
Proof.
  unfold js_lt. rewrite negb_true_iff. split.
  - intros H. apply Qnot_le_lt. intros Hle.
    apply Qle_bool_iff in Hle. congruence.
  - intros Hlt. destruct (Qle_bool b a) eqn:Hle; [|done].
    apply Qle_bool_iff in Hle. by apply Qlt_not_le in Hlt.
Qed.

Lemma js_min_le_r (a b : Q) : (js_min a b <= b)%Q.
Proof.
  unfold js_min. destruct (Qle_bool a b) eqn:H; [|apply Qle_refl].
  by apply Qle_bool_iff.
Qed.

(** The card is 280 wide on every native host and on wide web windows, and
    never wider than 320.  For web windows from 480 to below 768 wide it is
    always 320: seventy per cent of such a width is at least 336, so the
    proportional width is never the smaller one there. *)
Theorem getCardWidth_never_exceeds_320 (h : Host) (width : Q) :
  (getCardWidth h width <= 320)%Q
  ∧ (platform_web h = false → getCardWidth h width = 280%Q)
  ∧ (platform_web h = true → (480 <= width)%Q → (width < 768)%Q →
     getCardWidth h width = 320%Q)
  ∧ (platform_web h = true → (768 <= width)%Q → (width < 1024)%Q →
     getCardWidth h width = 300%Q)
  ∧ (platform_web h = true → (1024 <= width)%Q →
     getCardWidth h width = 280%Q).
Proof.
  assert (∀ a b : Q, (a <= b)%Q → js_lt b a = false) as Hge.
  { intros a b Hle. destruct (js_lt b a) eqn:Hlt; [|done].
    apply js_lt_spec in Hlt. by apply Qlt_not_le in Hlt. }
  unfold getCardWidth. split; [|split; [|split; [|split]]].
  - destruct (platform_web h); [|done].
    destruct (js_lt width 480).
    { eapply Qle_trans; [apply js_min_le_r|done]. }
    destruct (js_lt width 768); [apply js_min_le_r|].
    by destruct (js_lt width 1024).
  - by intros ->.
  - intros -> H480 H768. rewrite (Hge 480%Q width H480).
    rewrite (proj2 (js_lt_spec width 768) H768).
    unfold js_min. destruct (Qle_bool (width * (7 # 10)) 320) eqn:Hle; [|done].
    apply Qle_bool_iff in Hle. exfalso.
    destruct width as [a b]. unfold Qle in *. cbn in *.
    rewrite ?Pos2Z.inj_mul in *. lia.
  - intros -> H768 H1024.
    assert (480 <= width)%Q as H480 by (eapply Qle_trans; [|exact H768]; done).
    rewrite (Hge 480%Q width H480), (Hge 768%Q width H768).
    by rewrite (proj2 (js_lt_spec width 1024) H1024).
  - intros -> H1024.
    assert (768 <= width)%Q as H768 by (eapply Qle_trans; [|exact H1024]; done).
    assert (480 <= width)%Q as H480 by (eapply Qle_trans; [|exact H768]; done).
    by rewrite (Hge 480%Q width H480), (Hge 768%Q width H768),
      (Hge 1024%Q width H1024).
Qed.

Lemma getCardWidth_never_exceeds_320_witness :
  getCardWidth browser_dev 600 = 320%Q
  ∧ getCardWidth native_release 600 = 280%Q.
Proof.
  destruct (getCardWidth_never_exceeds_320 browser_dev 600)
    as (_ & _ & Hweb & _).
  destruct (getCardWidth_never_exceeds_320 native_release 600)
    as (_ & Hnative & _).
  split; [apply Hweb | apply Hnative]; done.
Defined.

(** ** The gallery and the tracker *)

(** On the counters and on the host, delivering outcomes is running the
    loads among them. *)
Lemma deliver_as_run (h : Host) (os : list ImageOutcome)
    (t t' : ImageLoadingPerformance) :
  metrics t = metrics t' →
  metrics (fst (deliver h os t))
  = metrics (fst (run h (map OnImageLoaded (loadTimes os)) t'))
  ∧ hostEvents (snd (deliver h os t))
    = snd (run h (map OnImageLoaded (loadTimes os)) t').
Proof.
  revert t t'. induction os as [|o os IH]; intros t t' Hm; [done|].
  destruct o as [p now|p]; cbn [deliver loadTimes map run step].
  - unfold handleImageLoad.
    destruct (step_metrics_only h (OnImageLoaded now)
                (cacheImage (source p) t) t' Hm) as [Hm1 He1].
    cbn [step isTrackingCall] in Hm1, He1.
    destruct (onImageLoaded h now (cacheImage (source p) t)) as [t1 e1].
    destruct (onImageLoaded h now t') as [t1' e1'].
    cbn [fst snd] in *. subst e1'.
    destruct (IH t1 t1' Hm1) as [IHm IHe].
    destruct (deliver h os t1) as [t2 e2].
    destruct (run h (map OnImageLoaded (loadTimes os)) t1') as [t2' e2'].
    cbn [fst snd] in *. split; [done|].
    rewrite !LazyImageMoreFacts.hostEvents_app,
      LazyImageMoreFacts.hostEvents_map, IHe.
    destruct (threw e1), (onLoad p), (platform_web h); cbn;
      by rewrite ?app_nil_r.
  - unfold handleImageError.
    destruct (IH t t' Hm) as [IHm IHe].
    destruct (deliver h os t) as [t2 e2]. cbn [fst snd] in *.
    split; [done|]. by destruct (onError p).
Qed.

Lemma run_after_start (h : Host) (now n : Z) (cs : list Call)
    (t0 : ImageLoadingPerformance) :
  run h (StartTracking now n :: cs) t0
  = (fst (run h cs (fst (startTracking h now n t0))),
     snd (startTracking h now n t0)
     ++ snd (run h cs (fst (startTracking h now n t0)))).
Proof.
  cbn [run step]. destruct (startTracking h now n t0) as [t1 e1].
  cbn [fst snd]. by destruct (run h cs t1).
Qed.

Lemma Qdiv_Z_is_one (a b : Z) :
  (0 < b)%Z → (inject_Z a / inject_Z b == 1)%Q → a = b.
Proof.
  intros Hb. destruct b as [|q|q]; try lia.
  unfold Qdiv, Qinv, Qmult, Qeq, inject_Z; cbn. lia.
Qed.

(** After the home screen has started a session for its gallery, as long as
    fewer images have loaded than the gallery has, whether the others failed
    or are still pending, the handlers put nothing on the host, the end time
    is untouched and the progress is the share of images loaded, short of 1:
    one failed image keeps the session from ever completing. *)
Theorem failed_image_stalls_the_session
    {A : Type} (previousEventsData : list A) (h : Host) (now : Z)
    (t0 : ImageLoadingPerformance) (os : list ImageOutcome) :
  length (loadTimes os) < length previousEventsData →
  let t1 := fst (startGalleryTracking h now previousEventsData t0) in
  let r := deliver h os t1 in
  hostEvents (snd r) = []
  ∧ imageLoadEnd (getMetrics (fst r)) = imageLoadEnd (getMetrics t0)
  ∧ getProgress (fst r)
    = Finite (inject_Z (Z.of_nat (length (loadTimes os)))
              / inject_Z (Z.of_nat (length previousEventsData)))
  ∧ ¬ js_is_one (getProgress (fst r)).
Proof.
  intros Hfew t1 r. subst r.
  assert (metrics t1
          = {| imageLoadStart := now; imageLoadEnd := imageLoadEnd (metrics t0);
               totalImages := Z.of_nat (length previousEventsData);
               loadedImages := 0 |}) as Hm1 by done.
  clearbody t1.
  destruct (deliver_as_run h os t1 t1 eq_refl) as [Hm He].
  destruct (run_loads_miss h (loadTimes os) t1) as (Hm2 & _ & He2 & _).
  { right. rewrite Hm1; cbn. lia. }
  rewrite He, He2. rewrite Hm2, Hm1 in Hm. cbn in Hm. split; [done|].
  unfold getMetrics. rewrite Hm. cbn. split; [done|].
  assert (getProgress (fst (deliver h os t1))
          = Finite (inject_Z (Z.of_nat (length (loadTimes os)))
                    / inject_Z (Z.of_nat (length previousEventsData)))) as Hp.
  { rewrite getProgress_positive; rewrite Hm; cbn; [done|lia]. }
  split; [done|]. rewrite Hp. cbn. intros Hone.
  apply Qdiv_Z_is_one in Hone; lia.
Qed.

Lemma failed_image_stalls_the_session_witness :
  let p := {| source := SrcNumber 3; placeholder := false; onLoad := false;
              onError := true; threshold := 50; priority := low |} in
  let t1 := fst (startGalleryTracking browser_dev 0 [1; 2; 3] imagePerformance) in
  let r := deliver browser_dev [Loaded p 5; Failed p; Loaded p 9] t1 in
  hostEvents (snd r) = []
  ∧ imageLoadEnd (getMetrics (fst r)) = imageLoadEnd (getMetrics imagePerformance)
  ∧ getProgress (fst r)
    = Finite (inject_Z (Z.of_nat 2) / inject_Z (Z.of_nat 3))
  ∧ ¬ js_is_one (getProgress (fst r)).
Proof.
  intros p.
  apply (failed_image_stalls_the_session [1; 2; 3] browser_dev 0%Z
           imagePerformance [Loaded p 5; Failed p; Loaded p 9]).
  cbn. lia.
Defined.

(** When as many images load as the gallery has, the load that makes up the
    number stores its time as the end time, a development build logs the
    completion line once, with the elapsed time and the size of the gallery,
    and the progress is 1 if no further image loads. *)
Theorem gallery_completes_with_its_last_image
    {A : Type} (previousEventsData : list A) (h : Host) (now : Z)
    (t0 : ImageLoadingPerformance) (os : list ImageOutcome) (x : Z) :
  previousEventsData ≠ [] →
  loadTimes os !! (length previousEventsData - 1) = Some x →
  let n := Z.of_nat (length previousEventsData) in
  let t1 := fst (startGalleryTracking h now previousEventsData t0) in
  let r := deliver h os t1 in
  imageLoadEnd (getMetrics (fst r)) = x
  ∧ List.filter isLogLoadingComplete (hostEvents (snd r))
    = (if dev h then [LogLoadingComplete (x - now) n] else [])
  ∧ (length (loadTimes os) = length previousEventsData →
     js_is_one (getProgress (fst r))).
Proof.
  intros Hdata Hx n t1 r. subst r t1. unfold startGalleryTracking. fold n.
  set (t1 := fst (startTracking h now n t0)).
  assert (0 < length previousEventsData) as Hlen
    by (destruct previousEventsData; [done | cbn; lia]).
  destruct (deliver_as_run h os t1 t1 eq_refl) as [Hm He].
  destruct (split_at_nth_load n (loadTimes os))
    as (firsts & x' & rest & Hsplit & Hf & Hx').
  { apply lookup_lt_Some in Hx. subst n. lia. }
  replace (Z.to_nat (n - 1)) with (length previousEventsData - 1) in Hx'
    by (subst n; lia).
  assert (x' = x) as -> by congruence.
  pose proof (run_session_hit h t0 now n firsts x rest Hf) as Hhit.
  cbv zeta in Hhit. rewrite <- Hsplit, run_after_start in Hhit.
  cbn [fst snd] in Hhit. fold t1 in Hhit.
  destruct Hhit as (Hm3 & _ & He3 & _). apply app_inv_head in He3.
  unfold getMetrics. rewrite Hm, Hm3, He, He3. cbn [imageLoadEnd].
  split; [done|]. split.
  - by rewrite completionEvents_log.
  - intros Hall. rewrite getProgress_positive; rewrite Hm, Hm3; cbn; [|lia].
    rewrite Hsplit in Hall. rewrite length_app in Hall. cbn in Hall.
    replace (n + Z.of_nat (length rest))%Z with n by lia.
    apply Qdiv_Z_diag. lia.
Qed.

Lemma gallery_completes_with_its_last_image_witness :
  let p := {| source := SrcNumber 3; placeholder := false; onLoad := false;
              onError := true; threshold := 50; priority := low |} in
  let t1 := fst (startGalleryTracking browser_dev 100 [1; 2] imagePerformance) in
  let r := deliver browser_dev [Loaded p 130; Failed p; Loaded p 170] t1 in
  imageLoadEnd (getMetrics (fst r)) = 170%Z
  ∧ List.filter isLogLoadingComplete (hostEvents (snd r))
    = [LogLoadingComplete (170 - 100) (Z.of_nat 2)].
Proof.
  intros p.
  destruct (gallery_completes_with_its_last_image [1; 2] browser_dev 100%Z
              imagePerformance [Loaded p 130; Failed p; Loaded p 170] 170%Z)
    as (Hend & Hlog & _).
  - discriminate.
  - reflexivity.
  - split; [exact Hend | exact Hlog].
Defined.

End HomeFacts.
